(** * skylibs: [envmap/environmentmap.py]

    A shallow embedding of the [EnvironmentMap] class: the six projection
    transforms, the pixel-centre grid, the resampler, background filling and
    format conversion, together with the properties checked against them.

    Numbers.  The transforms are embedded over the real numbers [R]: every
    numpy operation ([+], [*], [/], [**2], [np.sqrt], [np.sin], [np.cos],
    [np.arccos], [np.arctan2]) is read as the exact real operation it rounds.
    What is concluded from that reading is what survives rounding: equalities
    and bounds between real values, and booleans only where the decision has
    a margin.  Where IEEE behaviour itself is the subject, the code is
    embedded a second time: the epsilon guard over binary64 primitive floats
    ([Module Float64]), the disk test of the two disk formats with every
    operation rounded to binary64 ([Module Rounding]). *)

From Stdlib Require Import String Ascii.
From Stdlib Require Import Reals Lra Lia ZArith List Bool Arith PeanoNat.
From Stdlib Require PrimFloat.
Import ListNotations.

(* ------------------------------------------------------------------ *)
(** * Real-number reading of the numpy scalar operations               *)
(* ------------------------------------------------------------------ *)

Local Open Scope R_scope.

(** [eps = 2**-52] (line 11). *)
Definition eps : R := / 2 ^ 52.

(** The comparison [a <= b] as numpy evaluates it, to a boolean. *)
Definition Rleb (a b : R) : bool := if Rle_dec a b then true else false.

(** [np.arctan2(y, x)]: the angle of the point [(x, y)], in [(-PI, PI]];
    [arctan2(0, 0) = 0] as in C99 (the reals have one zero, read as [+0]).
    numpy's range is the closed [[-pi, pi]]: it returns [-pi] for [x < 0] and
    a [y] that is [-0.0] or rounds to it, and [pi] at [(0.0, -0.0)].  On the
    negative x axis the two readings differ by a full turn; nothing below
    is concluded from which of the two ends is returned. *)
Definition arctan2 (y x : R) : R :=
  match total_order_T x 0 with
  | inright _ => atan (y / x)
  | inleft (left _) =>
      if Rle_dec 0 y then atan (y / x) + PI else atan (y / x) - PI
  | inleft (right _) =>
      match total_order_T y 0 with
      | inright _ => PI / 2
      | inleft (left _) => - (PI / 2)
      | inleft (right _) => 0
      end
  end.

(** [np.arccos] is the library's [acos]. *)
Definition arccos (x : R) : R := acos x.

(** ** World -> image *)

(** [world2latlong] (lines 128-135). *)
Definition world2latlong (x y z : R) : R * R :=
  let u := 1 + (1 / PI) * arctan2 x (- z) in
  let v := (1 / PI) * arccos y in
  let u := u / 2 in
  (u, v).

(** [world2angular] (lines 137-145). *)
Definition world2angular (x y z : R) : R * R :=
  let denum := (2 * PI * sqrt (x ^ 2 + y ^ 2)) + eps in
  let rAngular := arccos (- z) / denum in
  let v := 1 / 2 - rAngular * y in
  let u := 1 / 2 + rAngular * x in
  (u, v).

(** [world2skyangular] (lines 195-207). *)
Definition world2skyangular (x y z : R) : R * R :=
  let thetaAngular := arctan2 x z in
  let phiAngular := arctan2 (sqrt (x ^ 2 + z ^ 2)) y in
  let r := phiAngular / (PI / 2) in
  let u := r * sin thetaAngular / 2 + 1 / 2 in
  let v := 1 / 2 - r * cos thetaAngular / 2 in
  (u, v).

(** ** Image -> world: the result is [(x, y, z, valid)].

    In this reading [sin PI = 0] exactly and the disk test compares the
    exact [r].  The code has [sin(np.pi) = 1.2e-16] and compares the rounded
    [r]: the directions agree to rounding, the test agrees away from the
    circle ([Module Rounding] has it as the code computes it). *)

(** [latlong2world] (lines 147-161). *)
Definition latlong2world (u v : R) : R * R * R * bool :=
  let u := u * 2 in
  let thetaLatLong := PI * (u - 1) in
  let phiLatLong := PI * v in
  let x := sin phiLatLong * sin thetaLatLong in
  let y := cos phiLatLong in
  let z := - sin phiLatLong * cos thetaLatLong in
  let valid := true in
  (x, y, z, valid).

(** [angular2world] (lines 163-177). *)
Definition angular2world (u v : R) : R * R * R * bool :=
  let thetaAngular := arctan2 (- 2 * v + 1) (2 * u - 1) in
  let phiAngular := PI * sqrt ((2 * u - 1) ^ 2 + (2 * v - 1) ^ 2) in
  let x := sin phiAngular * cos thetaAngular in
  let y := sin phiAngular * sin thetaAngular in
  let z := - cos phiAngular in
  let r := (u - 0.5) ^ 2 + (v - 0.5) ^ 2 in
  let valid := Rleb r 0.25 in
  (x, y, z, valid).

(** [skyangular2world] (lines 179-193). *)
Definition skyangular2world (u v : R) : R * R * R * bool :=
  let thetaAngular := arctan2 (- 2 * v + 1) (2 * u - 1) in
  let phiAngular := PI / 2 * sqrt ((2 * u - 1) ^ 2 + (2 * v - 1) ^ 2) in
  let x := sin phiAngular * cos thetaAngular in
  let z := sin phiAngular * sin thetaAngular in
  let y := cos phiAngular in
  let r := (u - 0.5) ^ 2 + (v - 0.5) ^ 2 in
  let valid := Rleb r 0.25 in
  (x, y, z, valid).


(** ** Format registry and dispatch *)

(** [SUPPORTED_FORMATS] (lines 5-9). *)
Definition SUPPORTED_FORMATS : list string :=
  ["angular"; "skyangular"; "latlong"]%string.

(** The dict lookup [{...}.get(self.format_)] of [image2world] (lines 55-59):
    [None] when the tag is not a key. *)
Definition image2world_func (format_ : string)
  : option (R -> R -> R * R * R * bool) :=
  if (format_ =? "angular")%string then Some angular2world
  else if (format_ =? "skyangular")%string then Some skyangular2world
  else if (format_ =? "latlong")%string then Some latlong2world
  else None.

(** The dict lookup of [world2image] (lines 64-68). *)
Definition world2image_func (format_ : string)
  : option (R -> R -> R -> R * R) :=
  if (format_ =? "angular")%string then Some world2angular
  else if (format_ =? "skyangular")%string then Some world2skyangular
  else if (format_ =? "latlong")%string then Some world2latlong
  else None.

(** Image -> world -> image, for one transform pair: the composition the
    round-trip property is about. *)
Definition roundtrip (image2world : R -> R -> R * R * R * bool)
    (world2image : R -> R -> R -> R * R) (u v : R) : R * R :=
  let '(x, y, z, _) := image2world u v in world2image x y z.

(* ------------------------------------------------------------------ *)
(** * numpy arrays                                                     *)
(* ------------------------------------------------------------------ *)

Local Open Scope nat_scope.

(** A pixel sample: a number, or the [nan] that the grid interpolator
    returns for a query outside its grid. *)
Inductive sample : Type :=
| Num (r : R)
| NaN.

(** An array is its shape and its buffer in row-major (C) order, as in numpy:
    element [[i, j]] of a 2-D array of shape [(n, m)] is entry [i * m + j] of
    the buffer, element [[i, j, c]] of a 3-D array of shape [(n, m, k)] is
    entry [(i * m + j) * k + c]. *)
Record array2 (A : Type) : Type :=
  mkArray2 { shape2 : nat * nat; buf2 : list A }.
Record array3 (A : Type) : Type :=
  mkArray3 { shape3 : nat * nat * nat; buf3 : list A }.

Arguments mkArray2 {A} shape2 buf2.
Arguments shape2 {A} a.
Arguments buf2 {A} a.
Arguments mkArray3 {A} shape3 buf3.
Arguments shape3 {A} a.
Arguments buf3 {A} a.

Definition nrows {A} (a : array2 A) : nat := fst (shape2 a).
Definition ncols {A} (a : array2 A) : nat := snd (shape2 a).
Definition shape_0 {A} (a : array3 A) : nat := fst (fst (shape3 a)).
Definition shape_1 {A} (a : array3 A) : nat := snd (fst (shape3 a)).
Definition shape_2 {A} (a : array3 A) : nat := snd (shape3 a).

Definition get2 {A} (d : A) (a : array2 A) (i j : nat) : A :=
  nth (i * ncols a + j) (buf2 a) d.
Definition get3 {A} (d : A) (a : array3 A) (i j c : nat) : A :=
  nth ((i * shape_1 a + j) * shape_2 a + c) (buf3 a) d.

(** The buffer holds exactly the elements the shape announces. *)
Definition wf2 {A} (a : array2 A) : Prop :=
  length (buf2 a) = nrows a * ncols a.
Definition wf3 {A} (a : array3 A) : Prop :=
  length (buf3 a) = shape_0 a * shape_1 a * shape_2 a.

(** Element-wise application, and pairing of equally shaped arrays (the
    arrays this file pairs come out of one [meshgrid] or one transform;
    broadcasting between different shapes is not modelled). *)
Definition amap {A B} (f : A -> B) (a : array2 A) : array2 B :=
  mkArray2 (shape2 a) (map f (buf2 a)).
Definition azip {A B} (a : array2 A) (b : array2 B) : array2 (A * B) :=
  mkArray2 (shape2 a) (combine (buf2 a) (buf2 b)).

(** [np.zeros(shape)] for a 3-D shape. *)
Definition zeros (shape : nat * nat * nat) : array3 sample :=
  let '(n, m, k) := shape in mkArray3 shape (repeat (Num 0) (n * m * k)).

(** [a.flatten()]. *)
Definition flatten {A} (a : array2 A) : list A := buf2 a.

(** [f i x] over a list with the index of each entry. *)
Definition mapi {A B} (f : nat -> A -> B) (l : list A) : list B :=
  map (fun p => f (fst p) (snd p)) (combine (seq 0 (length l)) l).

(** The strided view [a[:, :, c]], as a 2-D array. *)
Definition channel (a : array3 sample) (c : nat) : array2 sample :=
  mkArray2 (shape_0 a, shape_1 a)
    (map (fun p => nth (p * shape_2 a + c) (buf3 a) NaN)
         (seq 0 (shape_0 a * shape_1 a))).

(** [a[:, :, c] = img]. *)
Definition assign_channel (a : array3 sample) (c : nat) (img : array2 sample)
  : array3 sample :=
  mkArray3 (shape3 a)
    (mapi (fun idx old =>
             if idx mod shape_2 a =? c
             then nth (idx / shape_2 a) (buf2 img) NaN else old)
          (buf3 a)).

(** [a[:, :, c][m] = x]: the entries of channel [c] selected by the boolean
    array [m] are overwritten with [x]. *)
Definition masked_assign (a : array3 sample) (c : nat) (m : array2 bool)
    (x : sample) : array3 sample :=
  mkArray3 (shape3 a)
    (mapi (fun idx old =>
             if (idx mod shape_2 a =? c)
                && nth (idx / shape_2 a) (buf2 m) false
             then x else old)
          (buf3 a)).

(** [np.linspace(start, stop, num)]: [num] evenly spaced values, end point
    included; [[start]] when [num = 1]. *)
Definition linspace (start stop : R) (num : nat) : list R :=
  map (fun k => (start + INR k * ((stop - start) / INR (num - 1)))%R)
      (seq 0 num).

(** The slice [l[1::2]]. *)
Fixpoint slice_1_2 {A} (l : list A) : list A :=
  match l with
  | _ :: x :: t => x :: slice_1_2 t
  | _ => []
  end.

(** [np.meshgrid(xs, ys)] with the default ['xy'] indexing: two arrays of
    shape [(len ys, len xs)], the first repeating [xs] along every row, the
    second constant along every row. *)
Definition meshgrid (xs ys : list R) : array2 R * array2 R :=
  (mkArray2 (length ys, length xs) (flat_map (fun _ => xs) ys),
   mkArray2 (length ys, length xs)
     (flat_map (fun y => map (fun _ => y) xs) ys)).

(** The element type of an array, as far as the code asks for it. *)
Inductive dtype : Type := dt_bool | dt_int64 | dt_float64.

Definition is_bool (t : dtype) : bool :=
  match t with dt_bool => true | _ => false end.

(** What is handed over as [valid]: an array with its dtype; [marr] holds
    the truth value of each entry. *)
Record mask : Type := mkMask { mdtype : dtype; marr : array2 bool }.

(* ------------------------------------------------------------------ *)
(** * Exceptions and methods                                           *)
(* ------------------------------------------------------------------ *)

Inductive exn : Type := AssertionError | IndexError | ValueError | TypeError.

(** The result of a call: a value or a raised exception. *)
Inductive outcome (A : Type) : Type :=
| Returned (a : A)
| Raised (e : exn).

Arguments Returned {A} a.
Arguments Raised {A} e.

Definition obind {A B} (o : outcome A) (k : A -> outcome B) : outcome B :=
  match o with
  | Returned a => k a
  | Raised e => Raised e
  end.

Declare Scope outcome_scope.
Delimit Scope outcome_scope with outcome.
Notation "x <- c1 ;; c2" := (obind c1 (fun x => c2))
  (at level 61, c1 at next level, right associativity) : outcome_scope.

(** [EnvironmentMap]: the attributes set by [__init__] (lines 33-35). *)
Record EnvironmentMap : Type := mkEnvironmentMap {
  data : array3 sample;
  format_ : string;
  backgroundColor : list sample
}.

(** A method of [EnvironmentMap]: it runs on [self], returns or raises, and
    leaves [self] as its assignments made it, also when it raises. *)
Definition method (A : Type) : Type :=
  EnvironmentMap -> outcome A * EnvironmentMap.

Definition ret {A} (a : A) : method A := fun self => (Returned a, self).
Definition raise {A} (e : exn) : method A := fun self => (Raised e, self).
Definition bind {A B} (m : method A) (k : A -> method B) : method B :=
  fun self =>
    match m self with
    | (Returned a, self') => k a self'
    | (Raised e, self') => (Raised e, self')
    end.

(** A call that does not assign to [self]. *)
Definition try_ {A} (o : outcome A) : method A := fun self => (o, self).
(** [assert b]. *)
Definition assert_ (b : bool) : method unit :=
  if b then ret tt else raise AssertionError.
Definition get_self : method EnvironmentMap :=
  fun self => (Returned self, self).
(** [self.data = d], [self.format_ = f], [self.backgroundColor = c]. *)
Definition set_data (d : array3 sample) : method unit :=
  fun self =>
    (Returned tt, mkEnvironmentMap d (format_ self) (backgroundColor self)).
Definition set_format_ (f : string) : method unit :=
  fun self =>
    (Returned tt, mkEnvironmentMap (data self) f (backgroundColor self)).
Definition set_backgroundColor (c : list sample) : method unit :=
  fun self => (Returned tt, mkEnvironmentMap (data self) (format_ self) c).

Declare Scope method_scope.
Delimit Scope method_scope with method.
Notation "x <- c1 ;; c2" := (bind c1 (fun x => c2))
  (at level 61, c1 at next level, right associativity) : method_scope.
Notation "c1 ;; c2" := (bind c1 (fun _ => c2))
  (at level 61, right associativity) : method_scope.

(* ------------------------------------------------------------------ *)
(** * The class [EnvironmentMap]                                       *)
(* ------------------------------------------------------------------ *)

(** [str.lower()], on the ASCII letters. *)
Definition lower_ascii (c : ascii) : ascii :=
  let n := nat_of_ascii c in
  if (65 <=? n) && (n <=? 90) then ascii_of_nat (n + 32) else c.

Fixpoint lower (s : string) : string :=
  match s with
  | EmptyString => EmptyString
  | String c s' => String (lower_ascii c) (lower s')
  end.

(** [f in SUPPORTED_FORMATS]. *)
Definition supported (f : string) : bool :=
  existsb (String.eqb f) SUPPORTED_FORMATS.

(** [__init__] (lines 21-35): the new object, or the failed assertion. *)
Definition __init__ (im : array3 sample) (format_ : string)
  : outcome EnvironmentMap :=
  if supported (lower format_)
  then Returned (mkEnvironmentMap im (lower format_) [Num 0; Num 0; Num 0])
  else Raised AssertionError.

(** [imageCoordinates] (lines 37-45). *)
Definition imageCoordinates (self : EnvironmentMap) : array2 R * array2 R :=
  let cols := linspace 0 1 (shape_1 (data self) * 2 + 1) in
  let rows := linspace 0 1 (shape_0 (data self) * 2 + 1) in
  let cols := slice_1_2 cols in
  let rows := slice_1_2 rows in
  meshgrid cols rows.

(** [image2world] (lines 53-60), on arrays [u], [v] of one shape: the
    transform is applied element by element; calling the [None] that [.get]
    returns for an unknown tag raises [TypeError]. *)
Definition image2world (self : EnvironmentMap) (u v : array2 R)
  : outcome (array2 R * array2 R * array2 R * mask) :=
  match image2world_func (format_ self) with
  | Some func =>
      let r := amap (fun p => func (fst p) (snd p)) (azip u v) in
      Returned (amap (fun t => fst (fst (fst t))) r,
                amap (fun t => snd (fst (fst t))) r,
                amap (fun t => snd (fst t)) r,
                mkMask dt_bool (amap snd r))
  | None => Raised TypeError
  end.

(** [world2image] (lines 62-69). *)
Definition world2image (self : EnvironmentMap) (x y z : array2 R)
  : outcome (array2 R * array2 R) :=
  match world2image_func (format_ self) with
  | Some func =>
      let r := amap (fun p => func (fst (fst p)) (snd (fst p)) (snd p))
                    (azip (azip x y) z) in
      Returned (amap fst r, amap snd r)
  | None => Raised TypeError
  end.

(** [worldCoordinates] (lines 47-51). *)
Definition worldCoordinates (self : EnvironmentMap)
  : outcome (array2 R * array2 R * array2 R * mask) :=
  let '(u, v) := imageCoordinates self in
  image2world self u v.

(** The loop of [setBackgroundColor] (lines 102-103), over the channels
    still to do: the right-hand side [self.backgroundColor[c]] is evaluated
    first and raises [IndexError] past the end of the colour. *)
Fixpoint paint_channels (cs : list nat) (valid : array2 bool)
  : method unit :=
  match cs with
  | [] => ret tt
  | c :: cs' =>
      (self <- get_self ;;
       match nth_error (backgroundColor self) c with
       | Some x =>
           set_data (masked_assign (data self) c (amap negb valid) x) ;;
           paint_channels cs' valid
       | None => raise IndexError
       end)%method
  end.

(** [setBackgroundColor] (lines 95-103); [color] is a 1-D array. *)
Definition setBackgroundColor (color : list sample) (valid : mask)
  : method unit :=
  (assert_ (is_bool (mdtype valid)) ;;
   self <- get_self ;;
   assert_ ((nrows (marr valid) =? shape_0 (data self))
            && (ncols (marr valid) =? shape_1 (data self))) ;;
   set_backgroundColor color ;;
   self <- get_self ;;
   paint_channels (seq 0 (shape_2 (data self))) (marr valid))%method.

(** ** The grid interpolator *)

Definition Rltb (a b : R) : bool := if Rlt_dec a b then true else false.

(** A query coordinate below the first or above the last grid point. *)
Definition out_of_bounds (grid : list R) (x : R) : bool :=
  Rltb x (hd 0%R grid) || Rltb (last grid 0%R) x.

(** [a[0, :]] and [a[:, 0]]: [IndexError] when the indexed axis is empty. *)
Definition row_0 {A} (a : array2 A) : outcome (list A) :=
  if nrows a =? 0 then Raised IndexError
  else Returned (firstn (ncols a) (buf2 a)).
Definition col_0 {A} (d : A) (a : array2 A) : outcome (list A) :=
  if ncols a =? 0 then Raised IndexError
  else Returned (map (fun i => nth (i * ncols a) (buf2 a) d)
                     (seq 0 (nrows a))).

(** [np.vstack((a, b)).T]: the rows [(a[k], b[k])]; [ValueError] when the
    two lengths differ. *)
Definition vstack_T {A} (a b : list A) : outcome (list (A * A)) :=
  if length a =? length b then Returned (combine a b)
  else Raised ValueError.

(** [l.reshape(n, m)]. *)
Definition reshape {A} (l : list A) (n m : nat) : outcome (array2 A) :=
  if length l =? n * m then Returned (mkArray2 (n, m) l)
  else Raised ValueError.

Section Resampler.

(** scipy.interpolate is not part of the repository.  What the code relies
    on is modelled: the constructor of [RegularGridInterpolator] raises
    [ValueError] unless [values.shape[i] == len(points[i])] on each axis,
    and with [bounds_error=False] a query outside the grid yields the fill
    value [nan].  The value it computes inside the grid is the parameter
    [linear]. *)
Variable linear : list R -> list R -> array2 sample -> R * R -> sample.

(** What the interpolator returns for the query [xi]. *)
Definition grid_value (points : list R * list R) (values : array2 sample)
    (xi : R * R) : sample :=
  if out_of_bounds (fst points) (fst xi)
     || out_of_bounds (snd points) (snd xi)
  then NaN
  else linear (fst points) (snd points) values xi.

Definition RegularGridInterpolator (points : list R * list R)
    (values : array2 sample) : outcome (R * R -> sample) :=
  if (nrows values =? length (fst points))
     && (ncols values =? length (snd points))
  then Returned (grid_value points values)
  else Raised ValueError.

(** The loop of [interpolate] (lines 85-88), over the channels still to do;
    [src] is [self.data], [data] the buffer being filled. *)
Fixpoint interpolate_channels (src : array3 sample)
    (coords : list R * list R) (target : list (R * R)) (cs : list nat)
    (data : array3 sample) : outcome (array3 sample) :=
  match cs with
  | [] => Returned data
  | c :: cs' =>
      (intmesh <- RegularGridInterpolator coords (channel src c) ;;
       let interpdata := map intmesh target in
       img <- reshape interpdata (shape_0 data) (shape_1 data) ;;
       interpolate_channels src coords target cs'
         (assign_channel data c img))%outcome
  end.

(** [interpolate] (lines 71-93); the argument [method] is not used by the
    body. *)
Definition interpolate (u v : array2 R) (valid : mask) : method unit :=
  (self <- get_self ;;
   let '(cols, rows) := imageCoordinates self in
   cols <- try_ (row_0 cols) ;;
   rows <- try_ (col_0 0%R rows) ;;
   let coords := (cols, rows) in
   target <- try_ (vstack_T (flatten u) (flatten v)) ;;
   let data0 := zeros (length cols, length rows, shape_2 (data self)) in
   newdata <- try_ (interpolate_channels (data self) coords target
                      (seq 0 (shape_2 (data self))) data0) ;;
   set_data newdata ;;
   self <- get_self ;;
   setBackgroundColor (backgroundColor self) valid)%method.

(** [convertTo] (lines 105-126); [targetDim] is not used by the body. *)
Definition convertTo (targetFormat : string) : method unit :=
  (assert_ (supported (lower targetFormat)) ;;
   self <- get_self ;;
   eTmp <- try_ (__init__ (zeros (shape3 (data self))) targetFormat) ;;
   w <- try_ (worldCoordinates eTmp) ;;
   let '(dx, dy, dz, valid) := w in
   uv <- try_ (world2image self dx dy dz) ;;
   let '(u, v) := uv in
   set_format_ targetFormat ;;
   interpolate u v valid)%method.

End Resampler.

(** ** Closed forms of the two loops, and small inputs to run them on *)

(** The [n] bin centres [(2k+1)/(2n)]. *)
Definition bin_centers (n : nat) : list R :=
  map (fun k => ((2 * INR k + 1) / (2 * INR n))%R) (seq 0 n).

(** The buffer after the loop of [setBackgroundColor] over [cs]. *)
Definition painted (a : array3 sample) (cs : list nat) (valid : array2 bool)
    (color : list sample) : array3 sample :=
  fold_left
    (fun acc c => masked_assign acc c (amap negb valid) (nth c color NaN))
    cs a.

(** The buffer after the loop of [interpolate] over [cs]. *)
Definition resampled
    (linear : list R -> list R -> array2 sample -> R * R -> sample)
    (src : array3 sample) (coords : list R * list R)
    (target : list (R * R)) (cs : list nat) (data0 : array3 sample)
  : array3 sample :=
  fold_left
    (fun acc c =>
       assign_channel acc c
         (mkArray2 (shape_0 acc, shape_1 acc)
            (map (grid_value linear coords (channel src c)) target)))
    cs data0.

(** The two assertions of [setBackgroundColor] pass. *)
Definition mask_fits (valid : mask) (a : array3 sample) : Prop :=
  mdtype valid = dt_bool
  /\ shape2 (marr valid) = (shape_0 a, shape_1 a).

(** What [convertTo] hands to [interpolate], for a target whose
    image-to-world transform is [g] and a source whose world-to-image
    transform is [h] (lines 122-124): the query arrays and the mask. *)
Definition conversion_arrays (g : R -> R -> R * R * R * bool)
    (h : R -> R -> R -> R * R) (self : EnvironmentMap)
  : array2 R * array2 R * mask :=
  let '(U, V) := imageCoordinates self in
  let r := amap (fun p => g (fst p) (snd p)) (azip U V) in
  let dx := amap (fun t => fst (fst (fst t))) r in
  let dy := amap (fun t => snd (fst (fst t))) r in
  let dz := amap (fun t => snd (fst t)) r in
  let q := amap (fun p => h (fst (fst p)) (snd (fst p)) (snd p))
                (azip (azip dx dy) dz) in
  (amap fst q, amap snd q, mkMask dt_bool (amap snd r)).

(** The same for one pixel centre [(cu, cv)]: where the source is sampled.
    Over the reals; the code's query is this one rounded, which matters
    only where the query sits on the border of the source grid
    ([off_border] below). *)
Definition conversion_query (g : R -> R -> R * R * R * bool)
    (h : R -> R -> R -> R * R) (cu cv : R) : R * R :=
  let '(x, y, z, _) := g cu cv in h x y z.

(** The map after a completed [convertTo] on a square map. *)
Definition converted
    (linear : list R -> list R -> array2 sample -> R * R -> sample)
    (g : R -> R -> R * R * R * bool) (h : R -> R -> R -> R * R)
    (targetFormat : string) (self : EnvironmentMap) : EnvironmentMap :=
  let '(u, v, valid) := conversion_arrays g h self in
  let n := shape_0 (data self) in
  let ch := shape_2 (data self) in
  mkEnvironmentMap
    (painted
       (resampled linear (data self) (bin_centers n, bin_centers n)
          (combine (flatten u) (flatten v)) (seq 0 ch) (zeros (n, n, ch)))
       (seq 0 ch) (marr valid) (backgroundColor self))
    targetFormat (backgroundColor self).

(** A 2 x 2 map with one channel, all zero. *)
Definition example_map : EnvironmentMap :=
  mkEnvironmentMap (zeros (2, 2, 1)) "latlong" [Num 0; Num 0; Num 0].

(** A boolean 2 x 2 mask with one invalid pixel, the same entries typed
    float64, and two query grids of four points: 2 x 2 outside the source
    grid, 1 x 4 inside it. *)
Definition example_mask : mask :=
  mkMask dt_bool (mkArray2 (2, 2) [true; false; true; true]).
Definition example_float_mask : mask :=
  mkMask dt_float64 (mkArray2 (2, 2) [true; false; true; true]).
Definition example_query_outside : array2 R :=
  mkArray2 (2, 2) [2; 2; 2; 2]%R.
Definition example_query_row : array2 R :=
  mkArray2 (1, 4) [1 / 2; 1 / 2; 1 / 2; 1 / 2]%R.

(** A 2 x 2 map with one channel holding 1, 2 / 3, 4. *)
Definition example_ramp : EnvironmentMap :=
  mkEnvironmentMap
    (mkArray3 (2, 2, 1) [Num 1; Num 2; Num 3; Num 4])
    "latlong" [Num 0; Num 0; Num 0].

(** A 4 x 4 map with one channel holding 1 .. 16, row by row. *)
Definition example_ramp4 : EnvironmentMap :=
  mkEnvironmentMap
    (mkArray3 (4, 4, 1)
       (map Num [1; 2; 3; 4; 5; 6; 7; 8; 9; 10; 11; 12; 13; 14; 15; 16]%R))
    "latlong" [Num 0; Num 0; Num 0].


(** ** An in-grid rule to run the resampler with

    The 'linear' method of scipy inside the grid: the cell is found with
    [searchsorted], and the four corner values are weighted by the
    normalised distances.  The theorems below hold for every in-grid rule;
    this one is what the example runs are made with. *)
Definition smul (w : R) (s : sample) : sample :=
  match s with Num r => Num (w * r) | NaN => NaN end.
Definition sadd (a b : sample) : sample :=
  match a, b with Num x, Num y => Num (x + y) | _, _ => NaN end.

Fixpoint searchsorted (grid : list R) (x : R) : nat :=
  match grid with
  | [] => 0
  | g :: t => if Rltb g x then S (searchsorted t x) else 0
  end.

Definition find_index (grid : list R) (x : R) : nat :=
  Nat.min (searchsorted grid x - 1) (length grid - 2).

Definition norm_distance (grid : list R) (x : R) : R :=
  let i := find_index grid x in
  ((x - nth i grid 0) / (nth (S i) grid 0 - nth i grid 0))%R.

Definition linear_in_grid (g0 g1 : list R) (values : array2 sample)
    (xi : R * R) : sample :=
  let i0 := find_index g0 (fst xi) in
  let i1 := find_index g1 (snd xi) in
  let y0 := norm_distance g0 (fst xi) in
  let y1 := norm_distance g1 (snd xi) in
  sadd (sadd (smul ((1 - y0) * (1 - y1)) (get2 NaN values i0 i1))
             (smul ((1 - y0) * y1) (get2 NaN values i0 (S i1))))
       (sadd (smul (y0 * (1 - y1)) (get2 NaN values (S i0) i1))
             (smul (y0 * y1) (get2 NaN values (S i0) (S i1)))).

Local Open Scope R_scope.

(* ------------------------------------------------------------------ *)
(** * Binary64 reading of [world2angular]                              *)
(* ------------------------------------------------------------------ *)

(** The epsilon guard is about IEEE division, which the reals cannot show:
    here [world2angular] is embedded over primitive binary64 floats.  [+],
    [-], [*], [/] and [sqrt] are the correctly rounded IEEE operations numpy
    uses; [x**2] is the rounded product [x * x]; [np.arccos] is libm's
    [acos], which Rocq's floats do not have, and is taken as a parameter. *)
Module Float64.
Import PrimFloat.
Local Open Scope float_scope.

(** [eps = 2**-52] (line 11). *)
Definition eps : float := 0x1p-52.

(** [np.pi], the double nearest to pi. *)
Definition pi : float := 0x1.921fb54442d18p+1.

(** [world2angular] (lines 137-145). *)
Definition world2angular (arccos : float -> float) (x y z : float)
  : float * float :=
  let denum := (2 * pi * sqrt (x * x + y * y)) + eps in
  let rAngular := arccos (- z) / denum in
  let v := 1 / 2 - rAngular * y in
  let u := 1 / 2 + rAngular * x in
  (u, v).

(** Both coordinates are neither infinite nor NaN. *)
Definition finite_uv (p : float * float) : bool :=
  is_finite (fst p) && is_finite (snd p).

(** A crude stand-in for [acos] near [1] ([acos x ~ sqrt (2 (1 - x))]),
    exact at [1]; used to run the model. *)
Definition arccos_near_one (x : float) : float := sqrt (2 * (1 - x)).

(** The disk test of [angular2world] and [skyangular2world] (lines 174-175
    and 190-191), which needs no library function. *)
Definition disk_valid (u v : float) : bool :=
  let r := (u - 0.5) * (u - 0.5) + (v - 0.5) * (v - 0.5) in
  r <=? 0.25.

End Float64.

(* ------------------------------------------------------------------ *)
(** * Rounded reading of the two disk formats                          *)
(* ------------------------------------------------------------------ *)

(** Binary64 arithmetic over the reals: an operation returns the exact
    result rounded to the nearest binary64 number, ties to even.  A binary64
    number is [n * 2^(e-52)] with [n] an integer and [e >= -1022]; [e] is the
    exponent of the argument, held at [-1022] in the subnormal range.
    Overflow is left out (arguments are below [2^1024] throughout), and so
    are nan and the sign of zero. *)
Module Rounding.

(** [floor (log2 x)], for [x > 0]. *)
Definition log2_floor (x : R) : Z := Int_part (ln x / ln 2).

Definition exponent (x : R) : Z := Z.max (log2_floor (Rabs x)) (-1022).

(** The integer nearest to [y], the even one of two equally near. *)
Definition nearest_even (y : R) : Z :=
  let f := Int_part y in
  match total_order_T (y - IZR f) (1 / 2) with
  | inleft (left _) => f
  | inleft (right _) => if Z.even f then f else (f + 1)%Z
  | inright _ => (f + 1)%Z
  end.

Definition round64 (x : R) : R :=
  if Req_EM_T x 0 then 0
  else
    let e := exponent x in
    IZR (nearest_even (x * powerRZ 2 (52 - e))) * powerRZ 2 (e - 52).


(** [np.pi], the binary64 number [0x1.921fb54442d18p+1]. *)
Definition pi : R := 884279719003555 / 2 ^ 48.

(** The correctly rounded operations; [x**2] is [mul x x]. *)
Definition add (x y : R) : R := round64 (x + y).
Definition sub (x y : R) : R := round64 (x - y).
Definition mul (x y : R) : R := round64 (x * y).
Definition div (x y : R) : R := round64 (x / y).
Definition sqrt (x : R) : R := round64 (R_sqrt.sqrt x).

Section Libm.

(** [np.sin], [np.cos] and [np.arctan2] are the platform's libm, which is
    not correctly rounded: they are parameters. *)
Variables libm_sin libm_cos : R -> R.
Variable libm_arctan2 : R -> R -> R.

(** [angular2world] (lines 163-177). *)
Definition angular2world (u v : R) : R * R * R * bool :=
  let thetaAngular :=
    libm_arctan2 (add (mul (- 2) v) 1) (sub (mul 2 u) 1) in
  let phiAngular :=
    mul pi (sqrt (add (mul (sub (mul 2 u) 1) (sub (mul 2 u) 1))
                      (mul (sub (mul 2 v) 1) (sub (mul 2 v) 1)))) in
  let x := mul (libm_sin phiAngular) (libm_cos thetaAngular) in
  let y := mul (libm_sin phiAngular) (libm_sin thetaAngular) in
  let z := - libm_cos phiAngular in
  let r := add (mul (sub u 0.5) (sub u 0.5)) (mul (sub v 0.5) (sub v 0.5)) in
  let valid := Rleb r 0.25 in
  (x, y, z, valid).

(** [skyangular2world] (lines 179-193). *)
Definition skyangular2world (u v : R) : R * R * R * bool :=
  let thetaAngular :=
    libm_arctan2 (add (mul (- 2) v) 1) (sub (mul 2 u) 1) in
  let phiAngular :=
    mul (div pi 2)
        (sqrt (add (mul (sub (mul 2 u) 1) (sub (mul 2 u) 1))
                   (mul (sub (mul 2 v) 1) (sub (mul 2 v) 1)))) in
  let x := mul (libm_sin phiAngular) (libm_cos thetaAngular) in
  let z := mul (libm_sin phiAngular) (libm_sin thetaAngular) in
  let y := libm_cos phiAngular in
  let r := add (mul (sub u 0.5) (sub u 0.5)) (mul (sub v 0.5) (sub v 0.5)) in
  let valid := Rleb r 0.25 in
  (x, y, z, valid).

End Libm.

End Rounding.

(* ------------------------------------------------------------------ *)
(** * Facts about [arctan2]                                            *)
(* ------------------------------------------------------------------ *)

Lemma hypot_scale (x y : R) :
  x <> 0 -> sqrt (x ^ 2 + y ^ 2) = Rabs x * sqrt (1 + Rsqr (y / x)).
Proof.
  intros Hx.
  rewrite <- sqrt_Rsqr_abs, <- sqrt_mult.
  - f_equal. unfold Rsqr. field. exact Hx.
  - apply Rle_0_sqr.
  - pose proof (Rle_0_sqr (y / x)). lra.
Qed.

Lemma hypot_pos (x y : R) : x <> 0 \/ y <> 0 -> 0 < sqrt (x ^ 2 + y ^ 2).
Proof.
  intros H. apply sqrt_lt_R0.
  pose proof (pow2_ge_0 x). pose proof (pow2_ge_0 y).
  destruct H as [H|H].
  - assert (0 < x ^ 2) by (destruct (Rtotal_order x 0) as [?|[?|?]]; nra). lra.
  - assert (0 < y ^ 2) by (destruct (Rtotal_order y 0) as [?|[?|?]]; nra). lra.
Qed.

Lemma arctan2_pos (y x : R) : 0 < x -> arctan2 y x = atan (y / x).
Proof.
  intros H. unfold arctan2.
  destruct (total_order_T x 0) as [[Hlt|Heq]|Hgt]; lra.
Qed.

Lemma arctan2_neg_nonneg (y x : R) :
  x < 0 -> 0 <= y -> arctan2 y x = atan (y / x) + PI.
Proof.
  intros H Hy. unfold arctan2.
  destruct (total_order_T x 0) as [[Hlt|Heq]|Hgt]; try lra.
  destruct (Rle_dec 0 y); lra.
Qed.

Lemma arctan2_neg_neg (y x : R) :
  x < 0 -> y < 0 -> arctan2 y x = atan (y / x) - PI.
Proof.
  intros H Hy. unfold arctan2.
  destruct (total_order_T x 0) as [[Hlt|Heq]|Hgt]; try lra.
  destruct (Rle_dec 0 y); lra.
Qed.

Lemma arctan2_0_pos (y : R) : 0 < y -> arctan2 y 0 = PI / 2.
Proof.
  intros H. unfold arctan2.
  destruct (total_order_T 0 0) as [[Hlt|Heq]|Hgt]; try lra.
  destruct (total_order_T y 0) as [[Hlt|Heq']|Hgt]; lra.
Qed.

Lemma arctan2_0_neg (y : R) : y < 0 -> arctan2 y 0 = - (PI / 2).
Proof.
  intros H. unfold arctan2.
  destruct (total_order_T 0 0) as [[Hlt|Heq]|Hgt]; try lra.
  destruct (total_order_T y 0) as [[Hlt|Heq']|Hgt]; lra.
Qed.

Lemma arctan2_0_0 : arctan2 0 0 = 0.
Proof.
  unfold arctan2.
  destruct (total_order_T 0 0) as [[Hlt|Heq]|Hgt]; lra.
Qed.

Lemma cos_arctan2 (y x : R) :
  x <> 0 \/ y <> 0 -> cos (arctan2 y x) = x / sqrt (x ^ 2 + y ^ 2).
Proof.
  intros H. pose proof (hypot_pos x y H) as Hh.
  destruct (total_order_T x 0) as [[Hlt|Heq]|Hgt].
  - assert (Hs := hypot_scale x y ltac:(lra)).
    rewrite Rabs_left in Hs by lra.
    assert (Hq : 0 < sqrt (1 + Rsqr (y / x))).
    { apply sqrt_lt_R0. pose proof (Rle_0_sqr (y / x)). lra. }
    destruct (Rle_dec 0 y).
    + rewrite arctan2_neg_nonneg by lra.
      rewrite neg_cos, cos_atan, Hs. field. split; lra.
    + rewrite arctan2_neg_neg by lra.
      replace (atan (y / x) - PI) with (- (- atan (y / x) + PI)) by ring.
      rewrite cos_neg, neg_cos, cos_neg, cos_atan, Hs. field. split; lra.
  - subst x. destruct H as [H|H]; [lra|].
    replace (0 / sqrt (0 ^ 2 + y ^ 2)) with 0 by (field; lra).
    destruct (Rtotal_order y 0) as [Hy|[Hy|Hy]]; [|lra|].
    + rewrite arctan2_0_neg by lra. rewrite cos_neg. apply cos_PI2.
    + rewrite arctan2_0_pos by lra. apply cos_PI2.
  - assert (Hs := hypot_scale x y ltac:(lra)).
    rewrite Rabs_right in Hs by lra.
    assert (Hq : 0 < sqrt (1 + Rsqr (y / x))).
    { apply sqrt_lt_R0. pose proof (Rle_0_sqr (y / x)). lra. }
    rewrite arctan2_pos by lra.
    rewrite cos_atan, Hs. field. split; lra.
Qed.

Lemma sin_arctan2 (y x : R) :
  x <> 0 \/ y <> 0 -> sin (arctan2 y x) = y / sqrt (x ^ 2 + y ^ 2).
Proof.
  intros H. pose proof (hypot_pos x y H) as Hh.
  destruct (total_order_T x 0) as [[Hlt|Heq]|Hgt].
  - assert (Hs := hypot_scale x y ltac:(lra)).
    rewrite Rabs_left in Hs by lra.
    assert (Hq : 0 < sqrt (1 + Rsqr (y / x))).
    { apply sqrt_lt_R0. pose proof (Rle_0_sqr (y / x)). lra. }
    destruct (Rle_dec 0 y).
    + rewrite arctan2_neg_nonneg by lra.
      rewrite neg_sin, sin_atan, Hs. field. split; lra.
    + rewrite arctan2_neg_neg by lra.
      replace (atan (y / x) - PI) with (- (- atan (y / x) + PI)) by ring.
      rewrite sin_neg, neg_sin, sin_neg, sin_atan, Hs. field. split; lra.
  - subst x. destruct H as [H|H]; [lra|].
    replace (0 ^ 2 + y ^ 2) with (Rsqr y) by (unfold Rsqr; ring).
    rewrite sqrt_Rsqr_abs.
    destruct (Rtotal_order y 0) as [Hy|[Hy|Hy]]; [|lra|].
    + rewrite arctan2_0_neg by lra. rewrite sin_neg, sin_PI2.
      rewrite Rabs_left by lra. field. lra.
    + rewrite arctan2_0_pos by lra. rewrite sin_PI2.
      rewrite Rabs_right by lra. field. lra.
  - assert (Hs := hypot_scale x y ltac:(lra)).
    rewrite Rabs_right in Hs by lra.
    assert (Hq : 0 < sqrt (1 + Rsqr (y / x))).
    { apply sqrt_lt_R0. pose proof (Rle_0_sqr (y / x)). lra. }
    rewrite arctan2_pos by lra.
    rewrite sin_atan, Hs. field. split; lra.
Qed.

Lemma atan_nonpos (t : R) : t <= 0 -> atan t <= 0.
Proof.
  intros [H|H].
  - left. rewrite <- atan_0. apply atan_increasing. exact H.
  - subst t. rewrite atan_0. lra.
Qed.

Lemma atan_pos (t : R) : 0 < t -> 0 < atan t.
Proof. intros H. rewrite <- atan_0. apply atan_increasing. exact H. Qed.

Lemma arctan2_bound (y x : R) : - PI < arctan2 y x <= PI.
Proof.
  pose proof PI_RGT_0 as HPI.
  destruct (total_order_T x 0) as [[Hlt|Heq]|Hgt].
  - pose proof (atan_bound (y / x)) as Hb.
    destruct (Rle_dec 0 y).
    + rewrite arctan2_neg_nonneg by lra.
      assert (atan (y / x) <= 0).
      { apply atan_nonpos. apply Rmult_le_reg_r with (- x); [lra|].
        replace (y / x * - x) with (- y) by (field; lra). lra. }
      lra.
    + rewrite arctan2_neg_neg by lra.
      assert (0 < atan (y / x)).
      { apply atan_pos. apply Rmult_lt_reg_r with (- x); [lra|].
        replace (y / x * - x) with (- y) by (field; lra). lra. }
      lra.
  - subst x. destruct (Rtotal_order y 0) as [Hy|[Hy|Hy]].
    + rewrite arctan2_0_neg by lra. lra.
    + subst y. rewrite arctan2_0_0. lra.
    + rewrite arctan2_0_pos by lra. lra.
  - rewrite arctan2_pos by lra. pose proof (atan_bound (y / x)). lra.
Qed.

Lemma sin_eq_0_small (d : R) : - PI < d < PI -> sin d = 0 -> d = 0.
Proof.
  intros Hd Hs.
  destruct (Rtotal_order d 0) as [H|[H|H]]; [|exact H|].
  - pose proof (sin_lt_0_var d ltac:(lra) H). lra.
  - pose proof (sin_gt_0 d H ltac:(lra)). lra.
Qed.

Lemma cos_sin_inj (a b : R) :
  - PI < a <= PI -> - PI < b <= PI ->
  cos a = cos b -> sin a = sin b -> a = b.
Proof.
  intros Ha Hb Hc Hs.
  assert (Hc1 : cos (a - b) = 1).
  { rewrite cos_minus, Hc, Hs. pose proof (sin2_cos2 b) as H.
    unfold Rsqr in H. lra. }
  assert (Hd : sin ((a - b) / 2) = 0).
  { replace (a - b) with (2 * ((a - b) / 2)) in Hc1 by field.
    rewrite cos_2a_sin in Hc1. nra. }
  apply sin_eq_0_small in Hd; lra.
Qed.

Lemma arctan2_polar (s theta : R) :
  0 < s -> - PI < theta <= PI ->
  arctan2 (s * sin theta) (s * cos theta) = theta.
Proof.
  intros Hs Ht.
  assert (Hne : s * cos theta <> 0 \/ s * sin theta <> 0).
  { destruct (Req_dec (cos theta) 0) as [Hc|Hc].
    - right. intros H. apply (cos_sin_0 theta). split; [exact Hc|].
      apply Rmult_integral in H. destruct H; lra.
    - left. intros H. apply Rmult_integral in H. destruct H; lra. }
  assert (Hh : sqrt ((s * cos theta) ^ 2 + (s * sin theta) ^ 2) = s).
  { replace ((s * cos theta) ^ 2 + (s * sin theta) ^ 2) with (s ^ 2).
    - apply sqrt_pow2. lra.
    - pose proof (sin2_cos2 theta) as H. unfold Rsqr in H. nra. }
  apply cos_sin_inj.
  - apply arctan2_bound.
  - exact Ht.
  - rewrite cos_arctan2 by exact Hne. rewrite Hh. field. lra.
  - rewrite sin_arctan2 by exact Hne. rewrite Hh. field. lra.
Qed.

(* ------------------------------------------------------------------ *)
(** * The projection transforms                                        *)
(* ------------------------------------------------------------------ *)

Lemma Rleb_true_iff (a b : R) : Rleb a b = true <-> a <= b.
Proof.
  unfold Rleb. destruct (Rle_dec a b); split; intros; congruence || lra.
Qed.

Lemma eps_pos : 0 < eps.
Proof. unfold eps. apply Rinv_0_lt_compat. apply pow_lt. lra. Qed.

(** The decimal literals of the source. *)
Lemma lit_half : 0.5 = 1 / 2.
Proof. unfold Q2R. cbn. lra. Qed.

Lemma lit_quarter : 0.25 = 1 / 4.
Proof. unfold Q2R. cbn. lra. Qed.

(** The radius [sqrt((2u-1)^2 + (2v-1)^2)] of the two disk formats. *)
Lemma disk_radius_bound (u v : R) :
  (u - 0.5) ^ 2 + (v - 0.5) ^ 2 <= 0.25 ->
  0 <= sqrt ((2 * u - 1) ^ 2 + (2 * v - 1) ^ 2) <= 1.
Proof.
  rewrite lit_half, lit_quarter.
  intros H. split; [apply sqrt_pos|].
  pose proof (sqrt_le_1_alt ((2 * u - 1) ^ 2 + (2 * v - 1) ^ 2) 1) as Hs.
  rewrite sqrt_1 in Hs. apply Hs. nra.
Qed.

Lemma disk_radius_0 (u v : R) :
  sqrt ((2 * u - 1) ^ 2 + (2 * v - 1) ^ 2) = 0 -> u = 1 / 2 /\ v = 1 / 2.
Proof.
  intros H.
  assert (0 <= (2 * u - 1) ^ 2) by apply pow2_ge_0.
  assert (0 <= (2 * v - 1) ^ 2) by apply pow2_ge_0.
  apply sqrt_eq_0 in H; [|lra].
  split; nra.
Qed.


Lemma skyangular_valid_in_disk (u v : R) :
  snd (skyangular2world u v) = true -> (u - 0.5) ^ 2 + (v - 0.5) ^ 2 <= 0.25.
Proof. unfold skyangular2world. cbn [snd]. apply Rleb_true_iff. Qed.

(** In exact arithmetic the two disk tests are the closed disk inscribed in
    the unit square.  This is the idealised test only: the code compares the
    rounded [r], see below. *)
Lemma disk_formats_valid_iff (u v : R) :
  (snd (angular2world u v) = true <-> (u - 0.5) ^ 2 + (v - 0.5) ^ 2 <= 0.25)
  /\ (snd (skyangular2world u v) = true
      <-> (u - 0.5) ^ 2 + (v - 0.5) ^ 2 <= 0.25).
Proof.
  unfold angular2world, skyangular2world. cbn [snd].
  split; apply Rleb_true_iff.
Qed.

(* ------------------------------------------------------------------ *)
(** * The disk test in binary64                                        *)
(* ------------------------------------------------------------------ *)





















(** C5.  [latlong2world] is valid everywhere and computes
    [x = sin(pi v) sin(pi (2u-1))], [y = cos(pi v)],
    [z = - sin(pi v) cos(pi (2u-1))]; [world2latlong] computes
    [u = (1 + atan2(x, -z)/pi)/2] and [v = acos(y)/pi]. *)
Theorem latlong_formulas :
  (forall u v : R,
      latlong2world u v =
      (sin (PI * v) * sin (PI * (2 * u - 1)),
       cos (PI * v),
       - (sin (PI * v) * cos (PI * (2 * u - 1))),
       true))
  /\ (forall x y z : R,
         world2latlong x y z =
         ((1 + arctan2 x (- z) / PI) / 2, acos y / PI)).
Proof.
  pose proof PI_neq0 as HPI.
  split.
  - intros u v. unfold latlong2world.
    replace (u * 2 - 1) with (2 * u - 1) by ring.
    repeat f_equal. ring.
  - intros x y z. unfold world2latlong, arccos.
    f_equal; field; exact HPI.
Qed.

Lemma sin_cos_sphere (p t : R) :
  (sin p * cos t) ^ 2 + (sin p * sin t) ^ 2 + (cos p) ^ 2 = 1.
Proof.
  pose proof (sin2_cos2 p) as Hp. pose proof (sin2_cos2 t) as Ht.
  unfold Rsqr in Hp, Ht. nra.
Qed.

(** C9.  Whatever the format, the direction returned by its image-to-world
    transform for a point it marks valid has unit length. *)
Theorem image2world_unit_sphere (format_ : string)
    (f : R -> R -> R * R * R * bool) (u v : R) :
  image2world_func format_ = Some f ->
  snd (f u v) = true ->
  let '(x, y, z, _) := f u v in x ^ 2 + y ^ 2 + z ^ 2 = 1.
Proof.
  intros Hf _. unfold image2world_func in Hf.
  destruct (format_ =? "angular")%string;
    [|destruct (format_ =? "skyangular")%string;
      [|destruct (format_ =? "latlong")%string; [|discriminate]]];
    injection Hf as <-.
  - unfold angular2world.
    pose proof (sin_cos_sphere
      (PI * sqrt ((2 * u - 1) ^ 2 + (2 * v - 1) ^ 2))
      (arctan2 (- 2 * v + 1) (2 * u - 1))). nra.
  - unfold skyangular2world.
    pose proof (sin_cos_sphere
      (PI / 2 * sqrt ((2 * u - 1) ^ 2 + (2 * v - 1) ^ 2))
      (arctan2 (- 2 * v + 1) (2 * u - 1))). nra.
  - unfold latlong2world.
    pose proof (sin_cos_sphere (PI * v) (PI * (u * 2 - 1))). nra.
Qed.

Lemma image2world_unit_sphere_witness :
  let '(x, y, z, _) := angular2world (1 / 2) (1 / 2) in
  x ^ 2 + y ^ 2 + z ^ 2 = 1.
Proof.
  apply (image2world_unit_sphere "angular" angular2world (1 / 2) (1 / 2)).
  - reflexivity.
  - apply Rleb_true_iff. rewrite lit_half, lit_quarter. lra.
Defined.

(* ------------------------------------------------------------------ *)
(** * Round trips                                                      *)
(* ------------------------------------------------------------------ *)

Lemma hypot_polar (s t : R) :
  0 <= s -> sqrt ((s * cos t) ^ 2 + (s * sin t) ^ 2) = s.
Proof.
  intros Hs.
  replace ((s * cos t) ^ 2 + (s * sin t) ^ 2) with (s ^ 2).
  - apply sqrt_pow2. exact Hs.
  - pose proof (sin2_cos2 t) as H. unfold Rsqr in H. nra.
Qed.

Lemma latlong_roundtrip (u v : R) :
  0 < u <= 1 -> 0 < v < 1 ->
  roundtrip latlong2world world2latlong u v = (u, v).
Proof.
  intros Hu Hv. pose proof PI_RGT_0 as HPI.
  unfold roundtrip, latlong2world, world2latlong, arccos.
  assert (Hs : 0 < sin (PI * v)) by (apply sin_gt_0; nra).
  replace (- (- sin (PI * v) * cos (PI * (u * 2 - 1))))
    with (sin (PI * v) * cos (PI * (u * 2 - 1))) by ring.
  rewrite arctan2_polar by (try exact Hs; nra).
  rewrite acos_cos by nra.
  f_equal; field; lra.
Qed.

Lemma polar_nonzero (s t : R) : 0 < s -> s * sin t <> 0 \/ s * cos t <> 0.
Proof.
  intros Hs. destruct (Req_dec (cos t) 0) as [Hc|Hc].
  - left. intros H. apply (cos_sin_0 t). split; [exact Hc|].
    apply Rmult_integral in H. destruct H; lra.
  - right. intros H. apply Rmult_integral in H. destruct H; lra.
Qed.











(* ------------------------------------------------------------------ *)
(** * The epsilon guard                                                *)
(* ------------------------------------------------------------------ *)

(** Over the reals the divisor at the forward axis is [eps], not [0]. *)
Lemma world2angular_forward_axis :
  2 * PI * sqrt (0 ^ 2 + 0 ^ 2) + eps = eps
  /\ world2angular 0 0 (- 1) = (1 / 2, 1 / 2).
Proof.
  replace (0 ^ 2 + 0 ^ 2) with 0 by ring. rewrite sqrt_0.
  split; [ring|].
  unfold world2angular, arccos.
  replace (0 ^ 2 + 0 ^ 2) with 0 by ring.
  replace (- (- 1)) with 1 by lra.
  rewrite sqrt_0, acos_1.
  pose proof eps_pos. f_equal; field; lra.
Qed.

Module Float64Facts.
Import PrimFloat.
Local Open Scope float_scope.

(** C7.  In binary64, [world2angular(0, 0, -1)] is [(0.5, 0.5)], finite in
    both coordinates: the divisor is [2 pi sqrt(0) + eps = eps], so the
    quotient [arccos(1) / eps] is [0 / eps = 0], where without the guard it
    would be [0 / 0].  [arccos 1 = 0] is what IEEE 754 and C99 Annex F fix
    for [acos(1)]. *)
Theorem world2angular_forward_axis_finite (arccos : float -> float) :
  arccos 1 = 0 ->
  Float64.world2angular arccos 0 0 (-1) = (0.5, 0.5)
  /\ Float64.finite_uv (Float64.world2angular arccos 0 0 (-1)) = true.
Proof.
  intros H. unfold Float64.world2angular.
  change (- (-1)) with 1. rewrite H.
  split; vm_compute; reflexivity.
Qed.

Lemma world2angular_forward_axis_finite_witness :
  Float64.world2angular Float64.arccos_near_one 0 0 (-1) = (0.5, 0.5)
  /\ Float64.finite_uv
       (Float64.world2angular Float64.arccos_near_one 0 0 (-1)) = true.
Proof.
  apply (world2angular_forward_axis_finite Float64.arccos_near_one).
  vm_compute. reflexivity.
Defined.

(** Without the guard the same quotient is [0 / 0]: not a number. *)
Lemma unguarded_quotient_is_nan :
  is_nan (0 / (2 * Float64.pi * sqrt (0 * 0 + 0 * 0))) = true.
Proof. vm_compute. reflexivity. Qed.

(** The disk test run on primitive floats at [(1, 0.5 + 2^-30)], a point
    outside the disk: [0.5 + 2^-30] is a binary64 number, and the test
    passes, as in the rounded reading over the reals. *)
Lemma disk_valid_beyond_the_circle :
  (0.5 + 0x1p-30 - 0.5 =? 0x1p-30) = true
  /\ Float64.disk_valid 1 (0.5 + 0x1p-30) = true.
Proof. split; vm_compute; reflexivity. Qed.

End Float64Facts.

(* ------------------------------------------------------------------ *)
(** * The pixel-centre grid                                            *)
(* ------------------------------------------------------------------ *)

Lemma slice_1_2_map_seq {A} (f : nat -> A) (n s : nat) :
  slice_1_2 (map f (seq s (n * 2 + 1)))
  = map (fun k => f (s + (2 * k + 1))%nat) (seq 0 n).
Proof.
  revert s. induction n as [|n IH]; intros s.
  - reflexivity.
  - change (S n * 2 + 1)%nat with (S (S (n * 2 + 1))).
    cbn [seq map slice_1_2]. rewrite IH. rewrite <- seq_shift, map_map.
    f_equal.
    + f_equal. lia.
    + apply map_ext. intros k. f_equal. lia.
Qed.

(** [linspace(0, 1, 2n+1)[1::2]] is the list of the [n] bin centres. *)
Lemma pixel_centers (n : nat) :
  slice_1_2 (linspace 0 1 (n * 2 + 1))
  = map (fun k => (2 * INR k + 1) / (2 * INR n)) (seq 0 n).
Proof.
  unfold linspace. rewrite slice_1_2_map_seq.
  apply map_ext_in. intros k Hk. apply in_seq in Hk.
  replace (n * 2 + 1 - 1)%nat with (2 * n)%nat by lia.
  cbn [Nat.add]. rewrite plus_INR, !mult_INR. cbn [INR].
  assert (0 < INR n) by (apply lt_0_INR; lia).
  field. lra.
Qed.

Lemma nth_flat_map_const {A B} (xs : list A) (ys : list B) (i j : nat) d :
  (i < length ys)%nat -> (j < length xs)%nat ->
  nth (i * length xs + j) (flat_map (fun _ => xs) ys) d = nth j xs d.
Proof.
  revert i. induction ys as [|y ys IH]; intros i Hi Hj; cbn [length] in Hi.
  - lia.
  - cbn [flat_map]. destruct i as [|i].
    + cbn [Nat.mul Nat.add]. apply app_nth1. exact Hj.
    + rewrite app_nth2 by (cbn [Nat.mul]; lia).
      replace (S i * length xs + j - length xs)%nat
        with (i * length xs + j)%nat by (cbn [Nat.mul]; lia).
      apply IH; lia.
Qed.

Lemma nth_flat_map_rows {A} (xs : list A) (ys : list A) (i j : nat) d :
  (i < length ys)%nat -> (j < length xs)%nat ->
  nth (i * length xs + j) (flat_map (fun y => map (fun _ => y) xs) ys) d
  = nth i ys d.
Proof.
  revert i. induction ys as [|y ys IH]; intros i Hi Hj; cbn [length] in Hi.
  - lia.
  - cbn [flat_map]. destruct i as [|i].
    + cbn [Nat.mul Nat.add nth].
      rewrite app_nth1 by (rewrite length_map; exact Hj).
      rewrite (nth_indep _ d y) by (rewrite length_map; exact Hj).
      clear. revert j. induction xs as [|x xs IHx]; intros [|j]; cbn; auto.
    + rewrite app_nth2 by (rewrite length_map; cbn [Nat.mul]; lia).
      rewrite length_map.
      replace (S i * length xs + j - length xs)%nat
        with (i * length xs + j)%nat by (cbn [Nat.mul]; lia).
      cbn [nth]. apply IH; lia.
Qed.

Lemma length_flat_map_const {A B} (f : B -> list A) (ys : list B) (n : nat) :
  (forall y, length (f y) = n) ->
  length (flat_map f ys) = (length ys * n)%nat.
Proof.
  intros Hf. induction ys as [|y ys IH]; cbn [flat_map length].
  - reflexivity.
  - rewrite length_app, Hf, IH. cbn [Nat.mul]. reflexivity.
Qed.

Lemma meshgrid_spec (xs ys : list R) :
  let '(X, Y) := meshgrid xs ys in
  shape2 X = (length ys, length xs) /\ shape2 Y = (length ys, length xs)
  /\ wf2 X /\ wf2 Y
  /\ forall i j, (i < length ys)%nat -> (j < length xs)%nat ->
       get2 0 X i j = nth j xs 0 /\ get2 0 Y i j = nth i ys 0.
Proof.
  unfold meshgrid, wf2, get2, nrows, ncols. cbn [shape2 buf2 fst snd].
  repeat split.
  - apply length_flat_map_const. reflexivity.
  - apply length_flat_map_const. intros y. apply length_map.
  - apply nth_flat_map_const; assumption.
  - apply nth_flat_map_rows; assumption.
Qed.

Lemma nth_map_seq {A} (f : nat -> A) (n k : nat) (d : A) :
  (k < n)%nat -> nth k (map f (seq 0 n)) d = f k.
Proof.
  intros Hk.
  rewrite (nth_indep _ d (f 0%nat)) by (rewrite length_map, length_seq; lia).
  rewrite (map_nth f (seq 0 n) 0%nat k), seq_nth by lia. reflexivity.
Qed.

Lemma nth_pixel_center (n k : nat) :
  (k < n)%nat ->
  nth k (map (fun k => (2 * INR k + 1) / (2 * INR n)) (seq 0 n)) 0
  = (2 * INR k + 1) / (2 * INR n).
Proof. intros Hk. rewrite nth_map_seq by exact Hk. reflexivity. Qed.

Lemma pixel_center_increasing (n k k' : nat) :
  (k < k')%nat -> (k' < n)%nat ->
  (2 * INR k + 1) / (2 * INR n) < (2 * INR k' + 1) / (2 * INR n).
Proof.
  intros Hk Hk'.
  assert (0 < INR n) by (apply lt_0_INR; lia).
  assert (INR k < INR k') by (apply lt_INR; exact Hk).
  apply Rmult_lt_compat_r; [apply Rinv_0_lt_compat|]; lra.
Qed.

(** C8.  For a map with [rows] x [cols] pixels, [imageCoordinates] returns
    [(U, V)], both of shape [(rows, cols)], with [U[i, j] = (2j+1)/(2 cols)]
    and [V[i, j] = (2i+1)/(2 rows)]: [U] does not depend on the row and grows
    with the column index, [V] grows with the row index. *)
Theorem imageCoordinates_pixel_centers (self : EnvironmentMap) :
  let rows := shape_0 (data self) in
  let cols := shape_1 (data self) in
  (0 < rows)%nat -> (0 < cols)%nat ->
  let '(U, V) := imageCoordinates self in
  (shape2 U = (rows, cols) /\ shape2 V = (rows, cols) /\ wf2 U /\ wf2 V)
  /\ (forall i j, (i < rows)%nat -> (j < cols)%nat ->
        get2 0 U i j = (2 * INR j + 1) / (2 * INR cols)
        /\ get2 0 V i j = (2 * INR i + 1) / (2 * INR rows))
  /\ (forall i i' j, (i < rows)%nat -> (i' < rows)%nat -> (j < cols)%nat ->
        get2 0 U i j = get2 0 U i' j)
  /\ (forall i j j', (i < rows)%nat -> (j < j')%nat -> (j' < cols)%nat ->
        get2 0 U i j < get2 0 U i j')
  /\ (forall i i' j, (i < i')%nat -> (i' < rows)%nat -> (j < cols)%nat ->
        get2 0 V i j < get2 0 V i' j).
Proof.
  intros rows cols _ _. unfold imageCoordinates. fold rows cols.
  rewrite !pixel_centers.
  pose proof (meshgrid_spec
    (map (fun k => (2 * INR k + 1) / (2 * INR cols)) (seq 0 cols))
    (map (fun k => (2 * INR k + 1) / (2 * INR rows)) (seq 0 rows))) as H.
  destruct (meshgrid _ _) as [U V].
  rewrite !length_map, !length_seq in H.
  destruct H as (HsU & HsV & HwU & HwV & Hget).
  assert (Hval : forall i j, (i < rows)%nat -> (j < cols)%nat ->
            get2 0 U i j = (2 * INR j + 1) / (2 * INR cols)
            /\ get2 0 V i j = (2 * INR i + 1) / (2 * INR rows)).
  { intros i j Hi Hj. destruct (Hget i j Hi Hj) as [HU HV].
    rewrite HU, HV, !nth_pixel_center by assumption. split; reflexivity. }
  split; [auto|]. split; [exact Hval|]. split; [|split].
  - intros i i' j Hi Hi' Hj.
    rewrite (proj1 (Hval i j Hi Hj)), (proj1 (Hval i' j Hi' Hj)). reflexivity.
  - intros i j j' Hi Hj Hj'.
    rewrite (proj1 (Hval i j Hi ltac:(lia))), (proj1 (Hval i j' Hi Hj')).
    apply pixel_center_increasing; assumption.
  - intros i i' j Hi Hi' Hj.
    rewrite (proj2 (Hval i j ltac:(lia) Hj)), (proj2 (Hval i' j Hi' Hj)).
    apply pixel_center_increasing; assumption.
Qed.

Lemma imageCoordinates_pixel_centers_witness :
  let '(U, V) := imageCoordinates example_map in
  get2 0 U 0 1 = (2 * INR 1 + 1) / (2 * INR 2)
  /\ get2 0 V 1 0 = (2 * INR 1 + 1) / (2 * INR 2).
Proof.
  pose proof (imageCoordinates_pixel_centers example_map) as H.
  cbv zeta in H.
  specialize (H ltac:(cbn; lia) ltac:(cbn; lia)).
  destruct (imageCoordinates example_map) as [U V].
  destruct H as (_ & Hval & _).
  split.
  - exact (proj1 (Hval 0%nat 1%nat ltac:(cbn; lia) ltac:(cbn; lia))).
  - exact (proj2 (Hval 1%nat 0%nat ltac:(cbn; lia) ltac:(cbn; lia))).
Defined.

(* ------------------------------------------------------------------ *)
(** * Buffers and indices                                              *)
(* ------------------------------------------------------------------ *)

Local Open Scope nat_scope.

Lemma length_mapi {A B} (f : nat -> A -> B) (l : list A) :
  length (mapi f l) = length l.
Proof.
  unfold mapi. rewrite length_map, length_combine, length_seq.
  apply Nat.min_id.
Qed.

Lemma nth_mapi {A B} (f : nat -> A -> B) (l : list A) (k : nat) d d' :
  k < length l -> nth k (mapi f l) d = f k (nth k l d').
Proof.
  intros Hk. unfold mapi.
  rewrite (nth_indep _ d ((fun p => f (fst p) (snd p)) (0, d')))
    by (rewrite length_map, length_combine, length_seq, Nat.min_id; exact Hk).
  rewrite (map_nth (fun p => f (fst p) (snd p))).
  rewrite combine_nth by apply length_seq.
  rewrite seq_nth by exact Hk. reflexivity.
Qed.

Lemma index_lt (n m k i j c : nat) :
  i < n -> j < m -> c < k -> (i * m + j) * k + c < n * m * k.
Proof.
  intros Hi Hj Hc.
  assert (H1 : i * m + j + 1 <= n * m).
  { assert (S i * m <= n * m) by (apply Nat.mul_le_mono_r; lia).
    cbn [Nat.mul] in *. lia. }
  assert (H2 : (i * m + j + 1) * k <= n * m * k)
    by (apply Nat.mul_le_mono_r; exact H1).
  rewrite Nat.mul_add_distr_r in H2. lia.
Qed.

Lemma index_mod (p k c : nat) : c < k -> (p * k + c) mod k = c.
Proof.
  intros Hc. rewrite Nat.add_comm, Nat.Div0.mod_add.
  apply Nat.mod_small. exact Hc.
Qed.

Lemma index_div (p k c : nat) : c < k -> (p * k + c) / k = p.
Proof.
  intros Hc. rewrite Nat.add_comm, Nat.div_add by lia.
  rewrite Nat.div_small by exact Hc. reflexivity.
Qed.

(* ------------------------------------------------------------------ *)
(** * Background filling                                               *)
(* ------------------------------------------------------------------ *)

Lemma masked_assign_wf a c m x : wf3 a -> wf3 (masked_assign a c m x).
Proof.
  unfold wf3, masked_assign, shape_0, shape_1, shape_2. cbn [shape3 buf3].
  intros H. rewrite length_mapi. exact H.
Qed.

Lemma masked_assign_get a c m x i j c' d :
  wf3 a -> i < shape_0 a -> j < shape_1 a -> c' < shape_2 a ->
  get3 d (masked_assign a c m x) i j c'
  = if (c' =? c) && nth (i * shape_1 a + j) (buf2 m) false
    then x else get3 d a i j c'.
Proof.
  intros Hwf Hi Hj Hc. unfold get3, masked_assign, shape_1, shape_2.
  cbn [shape3 buf3].
  rewrite (nth_mapi _ _ _ d d) by (rewrite Hwf; apply index_lt; assumption).
  fold (shape_2 a). rewrite index_mod, index_div by assumption.
  reflexivity.
Qed.

Lemma painted_shape a cs valid color :
  shape3 (painted a cs valid color) = shape3 a.
Proof.
  unfold painted. revert a. induction cs as [|c cs IH]; intros a.
  - reflexivity.
  - cbn [fold_left]. rewrite IH. reflexivity.
Qed.

Lemma painted_wf a cs valid color :
  wf3 a -> wf3 (painted a cs valid color).
Proof.
  unfold painted. revert a. induction cs as [|c cs IH]; intros a Hwf.
  - exact Hwf.
  - cbn [fold_left]. apply IH. apply masked_assign_wf. exact Hwf.
Qed.

Lemma painted_get a cs valid color i j c' d :
  wf3 a -> i < shape_0 a -> j < shape_1 a -> c' < shape_2 a ->
  get3 d (painted a cs valid color) i j c'
  = if existsb (Nat.eqb c') cs
       && negb (nth (i * shape_1 a + j) (buf2 valid) true)
    then nth c' color NaN else get3 d a i j c'.
Proof.
  unfold painted. revert a. induction cs as [|c cs IH]; intros a Hwf Hi Hj Hc.
  - reflexivity.
  - cbn [fold_left existsb].
    rewrite IH by (try apply masked_assign_wf; assumption).
    rewrite masked_assign_get by assumption.
    change (shape_1 (masked_assign a c (amap negb valid) (nth c color NaN)))
      with (shape_1 a).
    unfold amap. cbn [buf2].
    change false with (negb true) at 1. rewrite map_nth.
    destruct (existsb (Nat.eqb c') cs); cbn [orb andb].
    + rewrite Bool.orb_true_r. cbn [andb].
      destruct (nth (i * shape_1 a + j) (buf2 valid) true); cbn [negb].
      * rewrite Bool.andb_false_r. reflexivity.
      * reflexivity.
    + rewrite Bool.orb_false_r.
      destruct (c' =? c) eqn:E; cbn [andb]; [|reflexivity].
      apply Nat.eqb_eq in E. subst c'. reflexivity.
Qed.

Lemma paint_channels_ok (cs : list nat) (valid : array2 bool)
    (self : EnvironmentMap) :
  (forall c, In c cs -> c < length (backgroundColor self)) ->
  paint_channels cs valid self
  = (Returned tt,
     mkEnvironmentMap
       (painted (data self) cs valid (backgroundColor self))
       (format_ self) (backgroundColor self)).
Proof.
  revert self. induction cs as [|c cs IH]; intros self Hlen.
  - destruct self. reflexivity.
  - cbn [paint_channels]. unfold bind at 1. unfold get_self.
    destruct (nth_error (backgroundColor self) c) as [x|] eqn:E.
    + unfold bind, set_data. rewrite IH.
      * cbn [data format_ backgroundColor]. unfold painted.
        cbn [fold_left]. rewrite (nth_error_nth _ _ NaN E). reflexivity.
      * cbn [backgroundColor]. intros c0 Hc0. apply Hlen. right. exact Hc0.
    + apply nth_error_None in E.
      specialize (Hlen c (or_introl eq_refl)). lia.
Qed.

Lemma setBackgroundColor_ok color valid self :
  mask_fits valid (data self) ->
  shape_2 (data self) <= length color ->
  setBackgroundColor color valid self
  = (Returned tt,
     mkEnvironmentMap
       (painted (data self) (seq 0 (shape_2 (data self))) (marr valid) color)
       (format_ self) color).
Proof.
  intros [Hdt Hsh] Hlen. unfold setBackgroundColor.
  unfold bind at 1. rewrite Hdt. cbn [is_bool assert_]. unfold ret at 1.
  unfold bind at 1. unfold get_self at 1.
  unfold bind at 1. unfold nrows, ncols. rewrite Hsh. cbn [fst snd].
  rewrite !Nat.eqb_refl. cbn [andb assert_]. unfold ret at 1.
  unfold bind at 1. unfold set_backgroundColor at 1.
  unfold bind at 1. unfold get_self at 1. cbn [data].
  rewrite paint_channels_ok.
  - reflexivity.
  - cbn [backgroundColor]. intros c Hc. apply in_seq in Hc. lia.
Qed.

Lemma setBackgroundColor_rejects color valid self :
  is_bool (mdtype valid) = false
  \/ shape2 (marr valid) <> (shape_0 (data self), shape_1 (data self)) ->
  setBackgroundColor color valid self = (Raised AssertionError, self).
Proof.
  intros H. unfold setBackgroundColor. unfold bind at 1.
  destruct (is_bool (mdtype valid)) eqn:Hb; cbn [assert_]; [|reflexivity].
  unfold ret at 1. unfold bind at 1. unfold get_self at 1.
  unfold bind at 1.
  destruct ((nrows (marr valid) =? shape_0 (data self))
            && (ncols (marr valid) =? shape_1 (data self))) eqn:Hs;
    cbn [assert_]; [|reflexivity].
  exfalso. destruct H as [H|H]; [discriminate|]. apply H.
  apply andb_prop in Hs. destruct Hs as [H0 H1].
  apply Nat.eqb_eq in H0, H1. unfold nrows, ncols in *.
  destruct (shape2 (marr valid)). cbn [fst snd] in *. congruence.
Qed.

(* ------------------------------------------------------------------ *)
(** * The resampler                                                    *)
(* ------------------------------------------------------------------ *)

Lemma assign_channel_wf a c img : wf3 a -> wf3 (assign_channel a c img).
Proof.
  unfold wf3, assign_channel, shape_0, shape_1, shape_2. cbn [shape3 buf3].
  intros H. rewrite length_mapi. exact H.
Qed.

Lemma assign_channel_get a c img i j c' d :
  wf3 a -> i < shape_0 a -> j < shape_1 a -> c' < shape_2 a ->
  get3 d (assign_channel a c img) i j c'
  = if c' =? c then nth (i * shape_1 a + j) (buf2 img) NaN
    else get3 d a i j c'.
Proof.
  intros Hwf Hi Hj Hc. unfold get3, assign_channel, shape_1, shape_2.
  cbn [shape3 buf3].
  rewrite (nth_mapi _ _ _ d d) by (rewrite Hwf; apply index_lt; assumption).
  fold (shape_2 a). rewrite index_mod, index_div by assumption.
  reflexivity.
Qed.

Lemma zeros_wf shape : wf3 (zeros shape).
Proof.
  destruct shape as [[n m] k]. unfold wf3, zeros, shape_0, shape_1, shape_2.
  cbn [shape3 buf3 fst snd]. apply repeat_length.
Qed.

Lemma zeros_shape shape : shape3 (zeros shape) = shape.
Proof. destruct shape as [[n m] k]. reflexivity. Qed.

Section ResamplerFacts.

Variable linear : list R -> list R -> array2 sample -> R * R -> sample.

Lemma resampled_shape src coords target cs data0 :
  shape3 (resampled linear src coords target cs data0) = shape3 data0.
Proof.
  unfold resampled. revert data0. induction cs as [|c cs IH]; intros data0.
  - reflexivity.
  - cbn [fold_left]. rewrite IH. reflexivity.
Qed.

Lemma resampled_wf src coords target cs data0 :
  wf3 data0 -> wf3 (resampled linear src coords target cs data0).
Proof.
  unfold resampled. revert data0.
  induction cs as [|c cs IH]; intros data0 Hwf.
  - exact Hwf.
  - cbn [fold_left]. apply IH. apply assign_channel_wf. exact Hwf.
Qed.

Lemma resampled_get src coords target cs data0 i j c' d :
  wf3 data0 -> length target = shape_0 data0 * shape_1 data0 ->
  i < shape_0 data0 -> j < shape_1 data0 -> c' < shape_2 data0 ->
  get3 d (resampled linear src coords target cs data0) i j c'
  = if existsb (Nat.eqb c') cs
    then grid_value linear coords (channel src c')
           (nth (i * shape_1 data0 + j) target (0%R, 0%R))
    else get3 d data0 i j c'.
Proof.
  unfold resampled. revert data0.
  induction cs as [|c cs IH]; intros data0 Hwf Hlen Hi Hj Hc.
  - reflexivity.
  - cbn [fold_left existsb].
    rewrite IH by (try apply assign_channel_wf; assumption).
    change (shape_1 (assign_channel data0 c _)) with (shape_1 data0).
    destruct (existsb (Nat.eqb c') cs).
    + rewrite Bool.orb_true_r. reflexivity.
    + rewrite Bool.orb_false_r, assign_channel_get by assumption.
      destruct (c' =? c) eqn:E; [|reflexivity].
      apply Nat.eqb_eq in E. subst c'. cbn [buf2].
      assert (Hp : i * shape_1 data0 + j < length target).
      { rewrite Hlen.
        pose proof (index_lt (shape_0 data0) (shape_1 data0) 1 i j 0
                      Hi Hj ltac:(lia)). lia. }
      rewrite (nth_indep _ NaN
                 (grid_value linear coords (channel src c) (0%R, 0%R)))
        by (rewrite length_map; exact Hp).
      apply (map_nth (grid_value linear coords (channel src c))).
Qed.

Lemma RegularGridInterpolator_ok src coords c :
  shape_0 src = length (fst coords) ->
  shape_1 src = length (snd coords) ->
  RegularGridInterpolator linear coords (channel src c)
  = Returned (grid_value linear coords (channel src c)).
Proof.
  intros H0 H1. unfold RegularGridInterpolator.
  replace (nrows (channel src c)) with (shape_0 src) by reflexivity.
  replace (ncols (channel src c)) with (shape_1 src) by reflexivity.
  rewrite H0, H1, !Nat.eqb_refl. reflexivity.
Qed.

Lemma reshape_ok {A} (l : list A) (n m : nat) :
  length l = n * m -> reshape l n m = Returned (mkArray2 (n, m) l).
Proof. intros H. unfold reshape. rewrite H, Nat.eqb_refl. reflexivity. Qed.

Lemma interpolate_channels_ok src coords target cs data0 :
  shape_0 src = length (fst coords) ->
  shape_1 src = length (snd coords) ->
  length target = shape_0 data0 * shape_1 data0 ->
  interpolate_channels linear src coords target cs data0
  = Returned (resampled linear src coords target cs data0).
Proof.
  intros H0 H1. unfold resampled. revert data0.
  induction cs as [|c cs IH]; intros data0 Hlen.
  - reflexivity.
  - cbn [interpolate_channels fold_left].
    rewrite RegularGridInterpolator_ok by assumption. cbn [obind].
    rewrite reshape_ok by (rewrite length_map; exact Hlen). cbn [obind].
    apply IH. exact Hlen.
Qed.

(** Whatever the loop returns has the shape it started from; if it ran at
    all, the grid matched the source and the target filled the buffer. *)
Lemma interpolate_channels_inv src coords target cs data0 nd :
  interpolate_channels linear src coords target cs data0 = Returned nd ->
  shape3 nd = shape3 data0
  /\ (cs <> [] ->
      shape_0 src = length (fst coords)
      /\ shape_1 src = length (snd coords)
      /\ length target = shape_0 data0 * shape_1 data0).
Proof.
  revert data0. induction cs as [|c cs IH]; intros data0 H.
  - cbn in H. injection H as <-. split; [reflexivity|]. congruence.
  - cbn [interpolate_channels] in H.
    unfold RegularGridInterpolator, channel, nrows, ncols in H.
    cbn [shape2 fst snd] in H.
    destruct ((shape_0 src =? length (fst coords))
              && (shape_1 src =? length (snd coords))) eqn:Hs;
      cbn [obind] in H; [|discriminate].
    unfold reshape in H. rewrite length_map in H.
    destruct (length target =? shape_0 data0 * shape_1 data0) eqn:Hl;
      cbn [obind] in H; [|discriminate].
    apply IH in H. destruct H as [Hsh _].
    split; [exact Hsh|]. intros _.
    apply andb_prop in Hs. destruct Hs as [Ha Hb].
    apply Nat.eqb_eq in Ha, Hb, Hl. auto.
Qed.

End ResamplerFacts.

Lemma length_bin_centers n : length (bin_centers n) = n.
Proof. unfold bin_centers. rewrite length_map, length_seq. reflexivity. Qed.

Lemma imageCoordinates_eq self :
  imageCoordinates self
  = meshgrid (bin_centers (shape_1 (data self)))
             (bin_centers (shape_0 (data self))).
Proof. unfold imageCoordinates. rewrite !pixel_centers. reflexivity. Qed.

Lemma row_0_meshgrid xs ys :
  row_0 (fst (meshgrid xs ys))
  = if length ys =? 0 then Raised IndexError else Returned xs.
Proof.
  unfold row_0, meshgrid, nrows, ncols. cbn [fst snd shape2 buf2].
  destruct ys as [|y ys]; [reflexivity|]. cbn [length Nat.eqb flat_map].
  rewrite firstn_app, firstn_all, Nat.sub_diag. cbn [firstn].
  rewrite app_nil_r. reflexivity.
Qed.

Lemma col_0_meshgrid xs ys :
  col_0 0%R (snd (meshgrid xs ys))
  = if length xs =? 0 then Raised IndexError else Returned ys.
Proof.
  unfold col_0, meshgrid, nrows, ncols. cbn [fst snd shape2 buf2].
  destruct (length xs =? 0) eqn:E; [reflexivity|].
  apply Nat.eqb_neq in E. f_equal.
  apply nth_ext with (d := 0%R) (d' := 0%R).
  - rewrite length_map, length_seq. reflexivity.
  - intros i Hi. rewrite length_map, length_seq in Hi.
    rewrite nth_map_seq by exact Hi.
    rewrite <- (Nat.add_0_r (i * length xs)).
    apply nth_flat_map_rows; lia.
Qed.

Section InterpolateFacts.

Variable linear : list R -> list R -> array2 sample -> R * R -> sample.

(** [interpolate], step by step. *)
Lemma interpolate_eq u v valid self :
  interpolate linear u v valid self
  = if shape_0 (data self) =? 0 then (Raised IndexError, self)
    else if shape_1 (data self) =? 0 then (Raised IndexError, self)
    else
      match vstack_T (flatten u) (flatten v) with
      | Raised e => (Raised e, self)
      | Returned target =>
          match interpolate_channels linear (data self)
                  (bin_centers (shape_1 (data self)),
                   bin_centers (shape_0 (data self)))
                  target (seq 0 (shape_2 (data self)))
                  (zeros (shape_1 (data self), shape_0 (data self),
                          shape_2 (data self)))
          with
          | Raised e => (Raised e, self)
          | Returned nd =>
              setBackgroundColor (backgroundColor self) valid
                (mkEnvironmentMap nd (format_ self) (backgroundColor self))
          end
      end.
Proof.
  unfold interpolate. unfold bind at 1. unfold get_self at 1.
  rewrite imageCoordinates_eq.
  pose proof (row_0_meshgrid (bin_centers (shape_1 (data self)))
                (bin_centers (shape_0 (data self)))) as Hr.
  pose proof (col_0_meshgrid (bin_centers (shape_1 (data self)))
                (bin_centers (shape_0 (data self)))) as Hc.
  destruct (meshgrid _ _) as [cols rows]. cbn [fst snd] in Hr, Hc.
  rewrite !length_bin_centers in *.
  unfold bind at 1. unfold try_ at 1. rewrite Hr.
  destruct (shape_0 (data self) =? 0); [reflexivity|].
  unfold bind at 1. unfold try_ at 1. rewrite Hc.
  destruct (shape_1 (data self) =? 0); [reflexivity|].
  unfold bind at 1. unfold try_ at 1.
  destruct (vstack_T (flatten u) (flatten v)) as [target|e]; [|reflexivity].
  unfold bind at 1. unfold try_ at 1. rewrite !length_bin_centers.
  destruct (interpolate_channels _ _ _ _ _ _) as [nd|e]; [|reflexivity].
  reflexivity.
Qed.

End InterpolateFacts.

Lemma existsb_seq (c n : nat) : c < n -> existsb (Nat.eqb c) (seq 0 n) = true.
Proof.
  intros Hc. apply existsb_exists. exists c. split.
  - apply in_seq. lia.
  - apply Nat.eqb_refl.
Qed.

Lemma vstack_T_ok {A} (a b : list A) :
  length a = length b -> vstack_T a b = Returned (combine a b).
Proof. intros H. unfold vstack_T. rewrite H, Nat.eqb_refl. reflexivity. Qed.

Section InterpolateRuns.

Variable linear : list R -> list R -> array2 sample -> R * R -> sample.

(** [interpolate] on a square [n] x [n] map, with [n * n] query points and
    a boolean [n] x [n] mask: the run up to [self.data = data]. *)
Lemma interpolate_assigns u v valid self n :
  shape_0 (data self) = n -> shape_1 (data self) = n -> 0 < n ->
  length (flatten u) = n * n -> length (flatten v) = n * n ->
  interpolate linear u v valid self
  = setBackgroundColor (backgroundColor self) valid
      (mkEnvironmentMap
         (resampled linear (data self) (bin_centers n, bin_centers n)
            (combine (flatten u) (flatten v))
            (seq 0 (shape_2 (data self)))
            (zeros (n, n, shape_2 (data self))))
         (format_ self) (backgroundColor self)).
Proof.
  intros H0 H1 Hn Hu Hv. rewrite interpolate_eq, H0, H1.
  destruct (Nat.eqb_neq n 0) as [_ Hne]. rewrite Hne by lia.
  rewrite vstack_T_ok by congruence.
  rewrite interpolate_channels_ok.
  - reflexivity.
  - cbn [fst]. rewrite length_bin_centers. exact H0.
  - cbn [snd]. rewrite length_bin_centers. exact H1.
  - rewrite length_combine, Hu, Hv, Nat.min_id. reflexivity.
Qed.

Lemma interpolate_ok u v valid self n :
  shape_0 (data self) = n -> shape_1 (data self) = n -> 0 < n ->
  length (flatten u) = n * n -> length (flatten v) = n * n ->
  mask_fits valid (data self) ->
  shape_2 (data self) <= length (backgroundColor self) ->
  interpolate linear u v valid self
  = (Returned tt,
     mkEnvironmentMap
       (painted
          (resampled linear (data self) (bin_centers n, bin_centers n)
             (combine (flatten u) (flatten v))
             (seq 0 (shape_2 (data self)))
             (zeros (n, n, shape_2 (data self))))
          (seq 0 (shape_2 (data self))) (marr valid)
          (backgroundColor self))
       (format_ self) (backgroundColor self)).
Proof.
  intros H0 H1 Hn Hu Hv [Hdt Hsh] Hbg.
  rewrite (interpolate_assigns u v valid self n) by assumption.
  rewrite setBackgroundColor_ok.
  - cbn [data format_ backgroundColor].
    unfold shape_2 at 3. rewrite resampled_shape. reflexivity.
  - split; [exact Hdt|]. cbn [data]. unfold shape_0, shape_1.
    rewrite resampled_shape. cbn [zeros shape3 fst snd].
    rewrite Hsh, H0, H1. reflexivity.
  - cbn [data backgroundColor]. unfold shape_2 at 1.
    rewrite resampled_shape. exact Hbg.
Qed.

End InterpolateRuns.

Lemma setBackgroundColor_pixels color valid self i j c :
  wf3 (data self) -> mask_fits valid (data self) ->
  i < shape_0 (data self) -> j < shape_1 (data self) ->
  c < shape_2 (data self) ->
  get3 NaN
    (painted (data self) (seq 0 (shape_2 (data self))) (marr valid) color)
    i j c
  = if get2 true (marr valid) i j then get3 NaN (data self) i j c
    else nth c color NaN.
Proof.
  intros Hwf [_ Hsh] Hi Hj Hc.
  rewrite painted_get by assumption.
  rewrite existsb_seq by exact Hc. cbn [andb].
  unfold get2, ncols. rewrite Hsh. cbn [snd].
  destruct (nth (i * shape_1 (data self) + j) (buf2 (marr valid)) true);
    reflexivity.
Qed.

Section InterpolatePixels.

Variable linear : list R -> list R -> array2 sample -> R * R -> sample.

Lemma interpolate_pixels u v valid self n i j c :
  shape_0 (data self) = n -> shape_1 (data self) = n ->
  shape2 u = (n, n) -> shape2 v = (n, n) -> wf2 u -> wf2 v ->
  mask_fits valid (data self) ->
  i < n -> j < n -> c < shape_2 (data self) ->
  get3 NaN
    (painted
       (resampled linear (data self) (bin_centers n, bin_centers n)
          (combine (flatten u) (flatten v))
          (seq 0 (shape_2 (data self)))
          (zeros (n, n, shape_2 (data self))))
       (seq 0 (shape_2 (data self))) (marr valid)
       (backgroundColor self))
    i j c
  = if get2 true (marr valid) i j
    then grid_value linear (bin_centers n, bin_centers n)
           (channel (data self) c) (get2 0%R u i j, get2 0%R v i j)
    else nth c (backgroundColor self) NaN.
Proof.
  intros H0 H1 Hsu Hsv Hwu Hwv Hfit Hi Hj Hc.
  set (ch := shape_2 (data self)) in *.
  set (target := combine (flatten u) (flatten v)).
  set (rs := resampled linear (data self) (bin_centers n, bin_centers n)
               target (seq 0 ch) (zeros (n, n, ch))).
  assert (Hrs : shape3 rs = (n, n, ch))
    by (unfold rs; rewrite resampled_shape; reflexivity).
  assert (Hlu : length (flatten u) = n * n)
    by (unfold flatten; rewrite Hwu; unfold nrows, ncols; rewrite Hsu;
        reflexivity).
  assert (Hlv : length (flatten v) = n * n)
    by (unfold flatten; rewrite Hwv; unfold nrows, ncols; rewrite Hsv;
        reflexivity).
  pose proof (setBackgroundColor_pixels (backgroundColor self) valid
                (mkEnvironmentMap rs (format_ self) (backgroundColor self))
                i j c) as Hp.
  cbn [data] in Hp. unfold shape_0, shape_1, shape_2 in Hp.
  rewrite Hrs in Hp. cbn [fst snd] in Hp. rewrite Hp; clear Hp; try assumption.
  - destruct (get2 true (marr valid) i j); [|reflexivity].
    unfold rs. rewrite resampled_get.
    + rewrite existsb_seq by exact Hc.
      unfold target. unfold shape_1. cbn [zeros shape3 fst snd].
      rewrite combine_nth by congruence.
      unfold get2, ncols, flatten. rewrite Hsu, Hsv. reflexivity.
    + apply zeros_wf.
    + unfold target. rewrite length_combine, Hlu, Hlv, Nat.min_id.
      reflexivity.
    + exact Hi.
    + exact Hj.
    + exact Hc.
  - unfold rs. apply resampled_wf, zeros_wf.
  - destruct Hfit as [Hdt Hsh]. split; [exact Hdt|].
    unfold shape_0, shape_1. rewrite Hrs, Hsh, H0, H1. reflexivity.
Qed.

End InterpolatePixels.

(** C6.  [setBackgroundColor(color, valid)], given a boolean mask of the
    map's spatial shape and a colour with an entry per channel, leaves every
    channel of a valid pixel as it was and sets every channel of an invalid
    pixel to the colour.  In [interpolate] the same mask alone decides: a
    valid pixel holds what the interpolator returned for its query point,
    [nan] included when the point lies outside the source grid. *)
Theorem background_fill_follows_mask :
  (forall color valid self,
      wf3 (data self) -> mask_fits valid (data self) ->
      shape_2 (data self) <= length color ->
      exists self',
        setBackgroundColor color valid self = (Returned tt, self')
        /\ shape3 (data self') = shape3 (data self)
        /\ forall i j c,
             i < shape_0 (data self) -> j < shape_1 (data self) ->
             c < shape_2 (data self) ->
             get3 NaN (data self') i j c
             = if get2 true (marr valid) i j
               then get3 NaN (data self) i j c
               else nth c color NaN)
  /\ (forall linear u v valid self n,
         shape_0 (data self) = n -> shape_1 (data self) = n -> 0 < n ->
         shape2 u = (n, n) -> shape2 v = (n, n) -> wf2 u -> wf2 v ->
         mask_fits valid (data self) ->
         shape_2 (data self) <= length (backgroundColor self) ->
         exists self',
           interpolate linear u v valid self = (Returned tt, self')
           /\ forall i j c,
                i < n -> j < n -> c < shape_2 (data self) ->
                (get2 true (marr valid) i j = false ->
                 get3 NaN (data self') i j c
                 = nth c (backgroundColor self) NaN)
                /\ (get2 true (marr valid) i j = true ->
                    get3 NaN (data self') i j c
                    = grid_value linear (bin_centers n, bin_centers n)
                        (channel (data self) c)
                        (get2 0%R u i j, get2 0%R v i j)
                    /\ (out_of_bounds (bin_centers n) (get2 0%R u i j)
                        || out_of_bounds (bin_centers n) (get2 0%R v i j)
                        = true ->
                        get3 NaN (data self') i j c = NaN))).
Proof.
  split.
  - intros color valid self Hwf Hfit Hlen.
    eexists. split; [apply setBackgroundColor_ok; assumption|].
    cbn [data]. split; [apply painted_shape|].
    intros i j c Hi Hj Hc. apply setBackgroundColor_pixels; assumption.
  - intros linear u v valid self n H0 H1 Hn Hsu Hsv Hwu Hwv Hfit Hbg.
    assert (Hlu : length (flatten u) = n * n)
      by (unfold flatten; rewrite Hwu; unfold nrows, ncols; rewrite Hsu;
          reflexivity).
    assert (Hlv : length (flatten v) = n * n)
      by (unfold flatten; rewrite Hwv; unfold nrows, ncols; rewrite Hsv;
          reflexivity).
    eexists. split; [apply (interpolate_ok linear u v valid self n);
                     assumption|].
    cbn [data]. intros i j c Hi Hj Hc.
    rewrite (interpolate_pixels linear u v valid self n i j c)
      by assumption.
    split; intros Hv; rewrite Hv; [reflexivity|].
    split; [reflexivity|].
    intros Hout. unfold grid_value. cbn [fst snd]. rewrite Hout.
    reflexivity.
Qed.

Lemma out_of_bounds_example : out_of_bounds (bin_centers 2) 2%R = true.
Proof.
  unfold out_of_bounds, bin_centers. cbn [seq map hd last INR].
  apply Bool.orb_true_iff. right. unfold Rltb.
  destruct (Rlt_dec _ _) as [H|H]; [reflexivity|]. exfalso. apply H. lra.
Qed.

Lemma background_fill_follows_mask_witness :
  (exists self',
      setBackgroundColor [Num 1] example_mask example_map
      = (Returned tt, self')
      /\ get3 NaN (data self') 0 0 0 = Num 0
      /\ get3 NaN (data self') 0 1 0 = Num 1)
  /\ (exists self',
         interpolate linear_in_grid example_query_outside
           example_query_outside example_mask example_map
         = (Returned tt, self')
         /\ get3 NaN (data self') 0 0 0 = NaN
         /\ get3 NaN (data self') 0 1 0 = Num 0).
Proof.
  destruct background_fill_follows_mask as [Hfill Hinterp].
  split.
  - destruct (Hfill [Num 1] example_mask example_map)
      as (self' & Hrun & _ & Hpix).
    + reflexivity.
    + split; reflexivity.
    + cbn. lia.
    + exists self'. split; [exact Hrun|].
      split; rewrite Hpix by (cbn; lia); reflexivity.
  - destruct (Hinterp linear_in_grid example_query_outside
                example_query_outside example_mask example_map 2)
      as (self' & Hrun & Hpix); try reflexivity.
    + lia.
    + split; reflexivity.
    + cbn. lia.
    + exists self'. split; [exact Hrun|]. split.
      * destruct (Hpix 0 0 0) as [_ Hvalid]; try (cbn; lia).
        destruct (Hvalid eq_refl) as [_ Hnan]. apply Hnan.
        change (get2 0%R example_query_outside 0 0) with 2%R.
        rewrite out_of_bounds_example. reflexivity.
      * destruct (Hpix 0 1 0) as [Hinvalid _]; try (cbn; lia).
        apply (Hinvalid eq_refl).
Defined.

(* ------------------------------------------------------------------ *)
(** * What a completed or failed call leaves behind                    *)
(* ------------------------------------------------------------------ *)

Lemma paint_channels_frame cs valid self o self' :
  paint_channels cs valid self = (o, self') ->
  shape3 (data self') = shape3 (data self)
  /\ format_ self' = format_ self
  /\ backgroundColor self' = backgroundColor self.
Proof.
  revert self. induction cs as [|c cs IH]; intros self H.
  - cbn in H. injection H as _ <-. auto.
  - cbn [paint_channels] in H. unfold bind at 1 in H. unfold get_self in H.
    destruct (nth_error (backgroundColor self) c) as [x|].
    + unfold bind, set_data in H. apply IH in H.
      cbn [data format_ backgroundColor masked_assign shape3] in H.
      exact H.
    + unfold raise in H. injection H as _ <-. auto.
Qed.

Lemma mask_fits_dec valid a :
  mask_fits valid a
  \/ (is_bool (mdtype valid) = false
      \/ shape2 (marr valid) <> (shape_0 a, shape_1 a)).
Proof.
  unfold mask_fits.
  destruct (mdtype valid); cbn [is_bool]; auto.
  destruct (shape2 (marr valid)) as [n m].
  destruct (Nat.eq_dec n (shape_0 a)) as [->|Hn];
    [destruct (Nat.eq_dec m (shape_1 a)) as [->|Hm]|].
  - left. auto.
  - right. right. congruence.
  - right. right. congruence.
Qed.

Lemma setBackgroundColor_passes color valid self :
  mask_fits valid (data self) ->
  setBackgroundColor color valid self
  = paint_channels (seq 0 (shape_2 (data self))) (marr valid)
      (mkEnvironmentMap (data self) (format_ self) color).
Proof.
  intros [Hdt Hsh]. unfold setBackgroundColor.
  unfold bind at 1. rewrite Hdt. cbn [is_bool assert_]. unfold ret at 1.
  unfold bind at 1. unfold get_self at 1.
  unfold bind at 1. unfold nrows, ncols. rewrite Hsh. cbn [fst snd].
  rewrite !Nat.eqb_refl. cbn [andb assert_]. unfold ret at 1.
  unfold bind at 1. unfold set_backgroundColor at 1.
  unfold bind at 1. unfold get_self at 1. reflexivity.
Qed.

Lemma setBackgroundColor_inv color valid self self' :
  setBackgroundColor color valid self = (Returned tt, self') ->
  mask_fits valid (data self)
  /\ shape3 (data self') = shape3 (data self)
  /\ format_ self' = format_ self
  /\ backgroundColor self' = color.
Proof.
  intros H. destruct (mask_fits_dec valid (data self)) as [Hfit|Hbad].
  - split; [exact Hfit|].
    rewrite setBackgroundColor_passes in H by exact Hfit.
    apply paint_channels_frame in H. exact H.
  - rewrite setBackgroundColor_rejects in H by exact Hbad. discriminate.
Qed.

(** The exact shape of the new buffer, as [interpolate] allocates it. *)
Lemma interpolate_allocates linear u v valid self self' :
  interpolate linear u v valid self = (Returned tt, self') ->
  shape3 (data self')
  = (shape_1 (data self), shape_0 (data self), shape_2 (data self))
  /\ shape2 (marr valid) = (shape_1 (data self), shape_0 (data self))
  /\ (0 < shape_2 (data self) ->
      shape_0 (data self) = shape_1 (data self)
      /\ length (flatten u) = shape_1 (data self) * shape_0 (data self)
      /\ length (flatten v) = shape_1 (data self) * shape_0 (data self)).
Proof.
  intros H. rewrite interpolate_eq in H.
  destruct (shape_0 (data self) =? 0); [discriminate|].
  destruct (shape_1 (data self) =? 0); [discriminate|].
  unfold vstack_T in H.
  destruct (length (flatten u) =? length (flatten v)) eqn:Huv;
    [|discriminate].
  apply Nat.eqb_eq in Huv.
  destruct (interpolate_channels _ _ _ _ _ _) as [nd|e] eqn:Hloop;
    [|discriminate].
  apply interpolate_channels_inv in Hloop. destruct Hloop as [Hnd Hran].
  cbn [zeros shape3] in Hnd.
  apply setBackgroundColor_inv in H.
  destruct H as ([_ Hsh] & Hsh' & _ & _). cbn [data] in Hsh, Hsh'.
  assert (Hnd0 : shape_0 nd = shape_1 (data self))
    by (unfold shape_0 at 1; rewrite Hnd; reflexivity).
  assert (Hnd1 : shape_1 nd = shape_0 (data self))
    by (unfold shape_1 at 1; rewrite Hnd; reflexivity).
  rewrite Hnd0, Hnd1 in Hsh. rewrite Hnd in Hsh'.
  split; [exact Hsh'|]. split; [exact Hsh|].
  intros Hch.
  destruct Hran as (H0 & H1 & Hlen).
  { destruct (shape_2 (data self)); [lia|]. discriminate. }
  cbn [fst snd] in H0, H1. rewrite length_bin_centers in H0, H1.
  rewrite length_combine, <- Huv, Nat.min_id in Hlen.
  replace (shape_0 (zeros (shape_1 (data self), shape_0 (data self),
                           shape_2 (data self))))
    with (shape_1 (data self)) in Hlen by reflexivity.
  replace (shape_1 (zeros (shape_1 (data self), shape_0 (data self),
                           shape_2 (data self))))
    with (shape_0 (data self)) in Hlen by reflexivity.
  split; [exact H0|]. split; congruence.
Qed.

(** Where the size of the new buffer comes from.  When [interpolate]
    completes, the new buffer has the source's channel count and as many
    pixels as the source, on a square source the source's very shape, and
    the mask has its spatial shape.  The query arrays [u] and [v] each hold
    as many points as the source has pixels (when there is a channel to
    interpolate). *)
Lemma interpolate_result_shape
    (linear : list R -> list R -> array2 sample -> R * R -> sample)
    (u v : array2 R) (valid : mask) (self self' : EnvironmentMap) :
  interpolate linear u v valid self = (Returned tt, self') ->
  shape_2 (data self') = shape_2 (data self)
  /\ shape_0 (data self') * shape_1 (data self')
     = shape_0 (data self) * shape_1 (data self)
  /\ (shape_0 (data self) = shape_1 (data self) ->
      shape3 (data self') = shape3 (data self))
  /\ shape2 (marr valid) = (shape_0 (data self'), shape_1 (data self'))
  /\ (0 < shape_2 (data self) ->
      length (flatten u) = shape_0 (data self) * shape_1 (data self)
      /\ length (flatten v) = shape_0 (data self) * shape_1 (data self)).
Proof.
  intros H. apply interpolate_allocates in H.
  destruct H as (Hsh & Hm & Hch).
  assert (H0' : shape_0 (data self') = shape_1 (data self))
    by (unfold shape_0 at 1; rewrite Hsh; reflexivity).
  assert (H1' : shape_1 (data self') = shape_0 (data self))
    by (unfold shape_1 at 1; rewrite Hsh; reflexivity).
  assert (H2' : shape_2 (data self') = shape_2 (data self))
    by (unfold shape_2 at 1; rewrite Hsh; reflexivity).
  rewrite H0', H1', H2'.
  split; [reflexivity|]. split; [apply Nat.mul_comm|].
  split; [|split; [exact Hm|]].
  - intros Hsq. rewrite Hsh, Hsq.
    destruct (data self) as [[[n m] k] b].
    unfold shape_0, shape_1, shape_2 in *. cbn [shape3 fst snd] in *.
    congruence.
  - intros Hpos. destruct (Hch Hpos) as (_ & Hu & Hv).
    rewrite Nat.mul_comm. auto.
Qed.

(** A run on which the query grid is 1 x 4 and the map 2 x 2. *)
Lemma interpolate_example_row_run :
  interpolate linear_in_grid example_query_row example_query_row
    example_mask example_map
  = (Returned tt,
     mkEnvironmentMap
       (painted
          (resampled linear_in_grid (data example_map)
             (bin_centers 2, bin_centers 2)
             (combine (flatten example_query_row)
                      (flatten example_query_row))
             (seq 0 (shape_2 (data example_map)))
             (zeros (2, 2, shape_2 (data example_map))))
          (seq 0 (shape_2 (data example_map))) (marr example_mask)
          (backgroundColor example_map))
       (format_ example_map) (backgroundColor example_map)).
Proof.
  apply (interpolate_ok linear_in_grid example_query_row example_query_row
           example_mask example_map 2); try reflexivity.
  - lia.
  - split; reflexivity.
  - cbn. lia.
Qed.

Lemma interpolate_result_shape_witness :
  exists self',
    interpolate linear_in_grid example_query_row example_query_row
      example_mask example_map = (Returned tt, self')
    /\ shape3 (data self') = shape3 (data example_map).
Proof.
  eexists. split; [exact interpolate_example_row_run|].
  destruct (interpolate_result_shape _ _ _ _ _ _
              interpolate_example_row_run) as (_ & _ & Hsq & _).
  apply Hsq. reflexivity.
Defined.

(** [interpolate] itself never looks at the shape of [u] and [v], only at
    their sizes: with a 2 x 2 mask, a 1 x 4 query grid is accepted on the
    2 x 2 map and the new buffer is 2 x 2.  It is the mask that ties the
    buffer to the query grid. *)
Lemma interpolate_shape_is_not_the_query_shape :
  exists self',
    interpolate linear_in_grid example_query_row example_query_row
      example_mask example_map = (Returned tt, self')
    /\ shape2 example_query_row = (1, 4)
    /\ (shape_0 (data self'), shape_1 (data self')) = (2, 2)
    /\ (shape_0 (data self'), shape_1 (data self'))
       <> shape2 example_query_row.
Proof.
  eexists. split; [exact interpolate_example_row_run|].
  cbn [data]. unfold shape_0, shape_1.
  rewrite painted_shape, resampled_shape.
  cbn. repeat split. discriminate.
Qed.






(** The new shape need not be the source's: a 2 x 3 map without channels
    comes back 3 x 2, the shape of its query grid. *)
Lemma interpolate_can_change_the_shape :
  exists self',
    interpolate linear_in_grid
      (mkArray2 (3, 2) [0; 0; 0; 0; 0; 0]%R)
      (mkArray2 (3, 2) [0; 0; 0; 0; 0; 0]%R)
      (mkMask dt_bool (mkArray2 (3, 2) [true; true; true; true; true; true]))
      (mkEnvironmentMap (zeros (2, 3, 0)) "latlong" [Num 0; Num 0; Num 0])
    = (Returned tt, self')
    /\ shape3 (data self') = (3, 2, 0).
Proof.
  eexists. rewrite interpolate_eq. cbn. split; reflexivity.
Qed.

Lemma supported_dispatch f :
  supported f = true ->
  exists g h, image2world_func f = Some g /\ world2image_func f = Some h.
Proof.
  unfold supported, SUPPORTED_FORMATS, image2world_func, world2image_func.
  cbn [existsb]. intros H.
  destruct (f =? "angular")%string; [eauto|].
  destruct (f =? "skyangular")%string; [eauto|].
  destruct (f =? "latlong")%string; [eauto|].
  discriminate.
Qed.

Lemma convertTo_rejects linear targetFormat self :
  supported (lower targetFormat) = false ->
  convertTo linear targetFormat self = (Raised AssertionError, self).
Proof.
  intros H. unfold convertTo. unfold bind at 1. rewrite H. reflexivity.
Qed.

Lemma setBackgroundColor_frame color valid self o self' :
  setBackgroundColor color valid self = (o, self') ->
  format_ self' = format_ self
  /\ (backgroundColor self' = color
      \/ backgroundColor self' = backgroundColor self).
Proof.
  intros H. destruct (mask_fits_dec valid (data self)) as [Hfit|Hbad].
  - rewrite setBackgroundColor_passes in H by exact Hfit.
    apply paint_channels_frame in H. destruct H as (_ & Hf & Hb).
    cbn [format_ backgroundColor] in Hf, Hb. auto.
  - rewrite setBackgroundColor_rejects in H by exact Hbad.
    injection H as _ <-. auto.
Qed.

(** [interpolate] never touches the tag nor the colour, however it ends. *)
Lemma interpolate_frame linear u v valid self o self' :
  interpolate linear u v valid self = (o, self') ->
  format_ self' = format_ self
  /\ backgroundColor self' = backgroundColor self.
Proof.
  intros H. rewrite interpolate_eq in H.
  destruct (shape_0 (data self) =? 0); [injection H as _ <-; auto|].
  destruct (shape_1 (data self) =? 0); [injection H as _ <-; auto|].
  destruct (vstack_T (flatten u) (flatten v)) as [target|e];
    [|injection H as _ <-; auto].
  destruct (interpolate_channels _ _ _ _ _ _) as [nd|e];
    [|injection H as _ <-; auto].
  apply setBackgroundColor_frame in H. destruct H as (Hf & Hb).
  cbn [format_ backgroundColor] in Hf, Hb. split; [exact Hf|].
  destruct Hb; assumption.
Qed.

(** [convertTo] never touches the colour, however it ends. *)
Lemma convertTo_frame linear targetFormat self o self' :
  convertTo linear targetFormat self = (o, self') ->
  backgroundColor self' = backgroundColor self.
Proof.
  intros H. unfold convertTo in H. unfold bind at 1 in H.
  destruct (supported (lower targetFormat)) eqn:Ht;
    [|injection H as _ <-; reflexivity].
  destruct (supported_dispatch _ Ht) as (g & _ & Hg & _).
  cbn [assert_] in H. unfold ret at 1 in H.
  unfold bind at 1 in H. unfold get_self at 1 in H.
  unfold bind at 1 in H. unfold try_ at 1 in H.
  unfold __init__ in H. rewrite Ht in H.
  unfold bind at 1 in H. unfold try_ at 1 in H.
  unfold worldCoordinates in H.
  destruct (imageCoordinates _) as [U V].
  unfold image2world in H. cbn [format_] in H. rewrite Hg in H.
  unfold bind at 1 in H. unfold try_ at 1 in H. unfold world2image in H.
  destruct (world2image_func (format_ self)) as [h|];
    [|injection H as _ <-; reflexivity].
  unfold bind at 1 in H. unfold set_format_ at 1 in H.
  apply interpolate_frame in H. destruct H as [_ Hb]. exact Hb.
Qed.

(** C3, as the code has it.  A check made before the first assignment
    leaves the map as it was: an unsupported format makes [__init__] build
    nothing and [convertTo] raise on the unchanged map, and a mask that is
    not boolean or not of the map's spatial shape makes [setBackgroundColor]
    raise on the unchanged map.  On every failure path [convertTo] leaves the
    background colour, [setBackgroundColor] the format tag, and
    [interpolate] both, as they were. *)
Theorem failed_checks_leave_map_unchanged :
  (forall im f,
      supported (lower f) = false -> __init__ im f = Raised AssertionError)
  /\ (forall linear f self,
         supported (lower f) = false ->
         convertTo linear f self = (Raised AssertionError, self))
  /\ (forall color valid self,
         is_bool (mdtype valid) = false
         \/ shape2 (marr valid) <> (shape_0 (data self), shape_1 (data self))
         ->
         setBackgroundColor color valid self = (Raised AssertionError, self))
  /\ (forall linear f self e self',
         convertTo linear f self = (Raised e, self') ->
         backgroundColor self' = backgroundColor self)
  /\ (forall color valid self e self',
         setBackgroundColor color valid self = (Raised e, self') ->
         format_ self' = format_ self)
  /\ (forall linear u v valid self e self',
         interpolate linear u v valid self = (Raised e, self') ->
         format_ self' = format_ self
         /\ backgroundColor self' = backgroundColor self).
Proof.
  repeat split.
  - intros im f H. unfold __init__. rewrite H. reflexivity.
  - apply convertTo_rejects.
  - apply setBackgroundColor_rejects.
  - intros linear f self e self' H. apply (convertTo_frame _ _ _ _ _ H).
  - intros color valid self e self' H.
    apply (setBackgroundColor_frame _ _ _ _ _ H).
  - apply (interpolate_frame _ _ _ _ _ _ _ H).
  - apply (interpolate_frame _ _ _ _ _ _ _ H).
Qed.

Lemma failed_checks_leave_map_unchanged_witness :
  __init__ (zeros (2, 2, 1)) "cube" = Raised AssertionError
  /\ convertTo linear_in_grid "cube" example_map
     = (Raised AssertionError, example_map)
  /\ setBackgroundColor [Num 1] example_float_mask example_map
     = (Raised AssertionError, example_map).
Proof.
  destruct failed_checks_leave_map_unchanged as (Hinit & Hconv & Hset & _).
  split; [|split].
  - apply Hinit. reflexivity.
  - apply Hconv. reflexivity.
  - apply Hset. left. reflexivity.
Defined.

(** The run of the counterexample to C3: four query points outside the
    source grid, and a mask typed float64. *)
Lemma interpolate_example_float_mask_run :
  interpolate linear_in_grid example_query_outside example_query_outside
    example_float_mask example_map
  = (Raised AssertionError,
     mkEnvironmentMap
       (resampled linear_in_grid (data example_map)
          (bin_centers 2, bin_centers 2)
          (combine (flatten example_query_outside)
                   (flatten example_query_outside))
          (seq 0 (shape_2 (data example_map)))
          (zeros (2, 2, shape_2 (data example_map))))
       (format_ example_map) (backgroundColor example_map)).
Proof.
  rewrite (interpolate_assigns linear_in_grid example_query_outside
             example_query_outside example_float_mask example_map 2)
    by (reflexivity || lia).
  apply setBackgroundColor_rejects. left. reflexivity.
Qed.

(** C3, as stated, fails: [interpolate] assigns [self.data] before
    [setBackgroundColor] checks the mask, so with a mask that is not boolean
    it raises [AssertionError] on a map whose buffer is already replaced:
    pixel [(0, 0)] was [0] and is [nan]. *)
Lemma interpolate_raises_on_a_changed_map :
  exists self',
    interpolate linear_in_grid example_query_outside example_query_outside
      example_float_mask example_map = (Raised AssertionError, self')
    /\ get3 NaN (data example_map) 0 0 0 = Num 0
    /\ get3 NaN (data self') 0 0 0 = NaN
    /\ self' <> example_map.
Proof.
  eexists. split; [exact interpolate_example_float_mask_run|].
  assert (Hnew : get3 NaN
            (resampled linear_in_grid (data example_map)
               (bin_centers 2, bin_centers 2)
               (combine (flatten example_query_outside)
                        (flatten example_query_outside))
               (seq 0 (shape_2 (data example_map)))
               (zeros (2, 2, shape_2 (data example_map)))) 0 0 0 = NaN).
  { rewrite resampled_get;
      [|apply zeros_wf|reflexivity|cbn; lia|cbn; lia|cbn; lia].
    change (existsb (Nat.eqb 0) (seq 0 (shape_2 (data example_map))))
      with true. cbn iota.
    unfold grid_value. cbn [fst snd].
    change (fst (nth _ _ _)) with 2%R.
    rewrite out_of_bounds_example. reflexivity. }
  split; [reflexivity|]. cbn [data]. split; [exact Hnew|].
  intros Heq. apply (f_equal (fun s => get3 NaN (data s) 0 0 0)) in Heq.
  cbn beta in Heq. cbn [data] in Heq. rewrite Hnew in Heq. discriminate.
Qed.

(* ------------------------------------------------------------------ *)
(** * Format conversion and the format tag                             *)
(* ------------------------------------------------------------------ *)

Lemma shape_zeros_0 s : shape_0 (zeros s) = fst (fst s).
Proof. unfold shape_0. rewrite zeros_shape. reflexivity. Qed.

Lemma shape_zeros_1 s : shape_1 (zeros s) = snd (fst s).
Proof. unfold shape_1. rewrite zeros_shape. reflexivity. Qed.

Lemma length_meshgrid xs ys :
  length (buf2 (fst (meshgrid xs ys))) = length ys * length xs
  /\ length (buf2 (snd (meshgrid xs ys))) = length ys * length xs.
Proof.
  pose proof (meshgrid_spec xs ys) as H.
  destruct (meshgrid xs ys) as [X Y].
  destruct H as (HX & HY & HwX & HwY & _).
  unfold wf2, nrows, ncols in HwX, HwY. rewrite HX in HwX. rewrite HY in HwY.
  cbn [fst snd] in *. auto.
Qed.

(** [convertTo] with a supported target on a map whose tag dispatches: the
    call reaches [interpolate], with the tag already set to the target as
    given, [rows * cols] query points in [u] and in [v], and a boolean mask
    of the map's spatial shape. *)
Lemma convertTo_reaches_interpolate linear targetFormat self :
  supported (lower targetFormat) = true ->
  supported (format_ self) = true ->
  exists u v valid,
    convertTo linear targetFormat self
    = interpolate linear u v valid
        (mkEnvironmentMap (data self) targetFormat (backgroundColor self))
    /\ length (flatten u) = shape_0 (data self) * shape_1 (data self)
    /\ length (flatten v) = shape_0 (data self) * shape_1 (data self)
    /\ mask_fits valid (data self).
Proof.
  intros Ht Hs.
  destruct (supported_dispatch _ Ht) as (g & _ & Hg & _).
  destruct (supported_dispatch _ Hs) as (_ & h & _ & Hh).
  unfold convertTo. unfold bind at 1. rewrite Ht. cbn [assert_].
  unfold ret at 1. unfold bind at 1. unfold get_self at 1.
  unfold bind at 1. unfold try_ at 1. unfold __init__. rewrite Ht.
  unfold bind at 1. unfold try_ at 1.
  unfold worldCoordinates. rewrite imageCoordinates_eq. cbn [data].
  rewrite shape_zeros_0, shape_zeros_1.
  fold (shape_0 (data self)). fold (shape_1 (data self)).
  pose proof (length_meshgrid (bin_centers (shape_1 (data self)))
                (bin_centers (shape_0 (data self)))) as [HlU HlV].
  pose proof (meshgrid_spec (bin_centers (shape_1 (data self)))
                (bin_centers (shape_0 (data self)))) as Hm.
  destruct (meshgrid _ _) as [U V]. cbn [fst snd] in HlU, HlV.
  destruct Hm as (HsU & _).
  rewrite !length_bin_centers in *.
  unfold image2world. cbn [format_]. rewrite Hg.
  unfold bind at 1. unfold try_ at 1. unfold world2image. rewrite Hh.
  unfold bind at 1. unfold set_format_ at 1.
  do 3 eexists. split; [reflexivity|].
  unfold flatten, amap, azip, mask_fits. cbn [buf2 shape2 marr mdtype].
  rewrite !length_map, !length_combine, !length_map, !length_combine.
  rewrite HlU, HlV, !Nat.min_id.
  repeat split; try reflexivity. exact HsU.
Qed.

Lemma convertTo_sets_tag_verbatim linear targetFormat self self' :
  convertTo linear targetFormat self = (Returned tt, self') ->
  format_ self' = targetFormat.
Proof.
  intros H. unfold convertTo in H. unfold bind at 1 in H.
  destruct (supported (lower targetFormat)) eqn:Ht; [|discriminate].
  destruct (supported_dispatch _ Ht) as (g & _ & Hg & _).
  cbn [assert_] in H. unfold ret at 1 in H.
  unfold bind at 1 in H. unfold get_self at 1 in H.
  unfold bind at 1 in H. unfold try_ at 1 in H.
  unfold __init__ in H. rewrite Ht in H.
  unfold bind at 1 in H. unfold try_ at 1 in H.
  unfold worldCoordinates in H.
  destruct (imageCoordinates _) as [U V].
  unfold image2world in H. cbn [format_] in H. rewrite Hg in H.
  unfold bind at 1 in H. unfold try_ at 1 in H. unfold world2image in H.
  destruct (world2image_func (format_ self)) as [h|]; [|discriminate].
  unfold bind at 1 in H. unfold set_format_ at 1 in H.
  apply interpolate_frame in H. destruct H as [Hf _].
  cbn [format_] in Hf. exact Hf.
Qed.

(** The tags at work: lowercasing, the registry and the two lookups. *)
Example lower_LatLong : lower "LatLong" = "latlong"%string.
Proof. reflexivity. Qed.

Example LatLong_passes_the_assertion : supported (lower "LatLong") = true.
Proof. reflexivity. Qed.

Example LatLong_is_no_key :
  image2world_func "LatLong" = None /\ world2image_func "LatLong" = None.
Proof. split; reflexivity. Qed.

Lemma init_inv im f self :
  __init__ im f = Returned self ->
  supported (lower f) = true
  /\ self = mkEnvironmentMap im (lower f) [Num 0; Num 0; Num 0].
Proof.
  unfold __init__. destruct (supported (lower f)); [|discriminate].
  intros H. injection H as <-. auto.
Qed.

(** C10.  [__init__] stores the tag lowercased, so [image2world] and
    [world2image] of a new map return; [convertTo] stores the target as it
    was written.  With the target ["LatLong"], on a new square map with at
    most three channels, [convertTo] returns, the tag is ["LatLong"], and
    from then on every [image2world] and [world2image] call raises
    [TypeError]: the lookup finds no transform. *)
Theorem convertTo_keeps_case_and_breaks_dispatch :
  (forall im f self,
      __init__ im f = Returned self ->
      format_ self = lower f
      /\ (forall u v, exists r, image2world self u v = Returned r)
      /\ (forall x y z, exists r, world2image self x y z = Returned r))
  /\ (forall linear t self self',
         convertTo linear t self = (Returned tt, self') ->
         format_ self' = t)
  /\ (forall linear im f self n,
         __init__ im f = Returned self ->
         shape_0 im = n -> shape_1 im = n -> 0 < n -> shape_2 im <= 3 ->
         exists self',
           convertTo linear "LatLong" self = (Returned tt, self')
           /\ format_ self' = "LatLong"%string
           /\ (forall u v, image2world self' u v = Raised TypeError)
           /\ (forall x y z, world2image self' x y z = Raised TypeError)).
Proof.
  split; [|split].
  - intros im f self H. apply init_inv in H. destruct H as [Hs ->].
    cbn [format_]. split; [reflexivity|].
    destruct (supported_dispatch _ Hs) as (g & h & Hg & Hh).
    unfold image2world, world2image. cbn [format_]. rewrite Hg, Hh.
    split; intros; eexists; reflexivity.
  - apply convertTo_sets_tag_verbatim.
  - intros linear im f self n H H0 H1 Hn Hch.
    apply init_inv in H. destruct H as [Hs ->].
    destruct (convertTo_reaches_interpolate linear "LatLong"
                (mkEnvironmentMap im (lower f) [Num 0; Num 0; Num 0]))
      as (u & v & valid & Hrun & Hu & Hv & Hfit);
      [reflexivity|exact Hs|].
    cbn [data backgroundColor] in Hrun, Hu, Hv, Hfit.
    rewrite H0, H1 in Hu, Hv.
    rewrite Hrun.
    rewrite (interpolate_ok linear u v valid _ n)
      by (cbn [data backgroundColor length]; assumption).
    eexists. split; [reflexivity|]. cbn [format_].
    split; [reflexivity|].
    unfold image2world, world2image. cbn [format_].
    split; intros; reflexivity.
Qed.

Lemma convertTo_keeps_case_and_breaks_dispatch_witness :
  exists self',
    convertTo linear_in_grid "LatLong" example_map = (Returned tt, self')
    /\ format_ self' = "LatLong"%string
    /\ (forall u v, image2world self' u v = Raised TypeError)
    /\ (forall x y z, world2image self' x y z = Raised TypeError).
Proof.
  destruct convertTo_keeps_case_and_breaks_dispatch as (_ & _ & H).
  apply (H linear_in_grid (zeros (2, 2, 1)) "LatLong"%string example_map 2).
  - reflexivity.
  - reflexivity.
  - reflexivity.
  - lia.
  - cbn. lia.
Defined.

(* ------------------------------------------------------------------ *)
(** * Further properties of the transforms                             *)
(* ------------------------------------------------------------------ *)

Local Open Scope R_scope.

(** [arccos] of a number in [[0, 1]] is at most a right angle. *)
Lemma acos_le_PI2 (t : R) : 0 <= t <= 1 -> acos t <= PI / 2.
Proof.
  intros Ht. pose proof (acos_bound t) as [Ha0 Ha1].
  destruct (Rle_dec (acos t) (PI / 2)) as [H|H]; [exact H|].
  pose proof PI_RGT_0 as HPI.
  assert (Hc : cos (acos t) < 0) by (apply cos_lt_0; lra).
  rewrite cos_acos in Hc by lra. lra.
Qed.

(** The half-space behind the camera lands well inside the disk: for a
    direction with [-1 <= z <= 0], of whatever length, the image point that
    [world2angular] returns is one that [angular2world] marks valid.  Its
    distance from the centre is at most 1/4, half the radius of the disk,
    so the test is passed with a margin of 3/16 on [r]. *)
Theorem world2angular_back_half_space_is_valid (x y z : R) :
  -1 <= z <= 0 ->
  let '(u, v) := world2angular x y z in snd (angular2world u v) = true.
Proof.
  intros Hz. unfold world2angular, angular2world, arccos. cbn [snd].
  apply Rleb_true_iff. rewrite lit_half, lit_quarter.
  pose proof PI_RGT_0 as HPI. pose proof eps_pos as Heps.
  pose proof (acos_bound (- z)) as [Ha0 _].
  pose proof (acos_le_PI2 (- z) ltac:(lra)) as Ha1.
  pose proof (sqrt_pos (x ^ 2 + y ^ 2)) as Hs.
  assert (Hs2 : sqrt (x ^ 2 + y ^ 2) * sqrt (x ^ 2 + y ^ 2) = x ^ 2 + y ^ 2).
  { apply sqrt_sqrt. pose proof (pow2_ge_0 x). pose proof (pow2_ge_0 y). lra. }
  set (s := sqrt (x ^ 2 + y ^ 2)) in *. set (a := acos (- z)) in *.
  assert (HD : 0 < 2 * PI * s + eps) by nra.
  set (k := a / (2 * PI * s + eps)).
  assert (Hk0 : 0 <= k).
  { unfold k, Rdiv. apply Rmult_le_pos; [lra|].
    left. apply Rinv_0_lt_compat. exact HD. }
  assert (Hks : k * s <= 1 / 4).
  { unfold k. apply Rmult_le_reg_r with (2 * PI * s + eps); [exact HD|].
    replace (a / (2 * PI * s + eps) * s * (2 * PI * s + eps))
      with (a * s) by (field; lra).
    nra. }
  assert (Hks0 : 0 <= k * s) by nra.
  replace ((1 / 2 + k * x - 1 / 2) ^ 2 + (1 / 2 - k * y - 1 / 2) ^ 2)
    with ((k * s) * (k * s)) by (rewrite <- (Rmult_1_l (k * s * (k * s)));
      transitivity (k * k * (s * s)); [ring | rewrite Hs2; ring]).
  nra.
Qed.

Lemma world2angular_back_half_space_is_valid_witness :
  let '(u, v) := world2angular 1 0 0 in snd (angular2world u v) = true.
Proof. apply (world2angular_back_half_space_is_valid 1 0 0). lra. Defined.

(** [world2latlong] returns image coordinates of the closed unit square:
    [0 <= u <= 1] and [0 <= v <= 1] (for [-1 <= y <= 1], where [np.arccos]
    is defined). *)
Theorem world2latlong_in_unit_square (x y z : R) :
  -1 <= y <= 1 ->
  let '(u, v) := world2latlong x y z in 0 <= u <= 1 /\ 0 <= v <= 1.
Proof.
  intros _. unfold world2latlong, arccos.
  pose proof PI_RGT_0 as HPI.
  pose proof (arctan2_bound x (- z)) as [Ht0 Ht1].
  pose proof (acos_bound y) as [Ha0 Ha1].
  assert (Hi : 0 < / PI) by (apply Rinv_0_lt_compat; lra).
  assert (HiPI : / PI * PI = 1) by (field; lra).
  replace (1 / PI) with (/ PI) by (field; lra).
  repeat split; nra.
Qed.

Lemma world2latlong_in_unit_square_witness :
  let '(u, v) := world2latlong 0 1 0 in 0 <= u <= 1 /\ 0 <= v <= 1.
Proof. apply (world2latlong_in_unit_square 0 1 0). lra. Defined.

Lemma atan_nonneg (t : R) : 0 <= t -> 0 <= atan t.
Proof.
  intros [H|H].
  - left. apply atan_pos. exact H.
  - subst t. rewrite atan_0. lra.
Qed.

(** The zenith angle [arctan2(s, y)] of [world2skyangular], [s >= 0]. *)
Lemma arctan2_zenith (s y : R) :
  0 <= s ->
  0 <= arctan2 s y <= PI /\ (arctan2 s y <= PI / 2 <-> 0 <= y).
Proof.
  intros Hs. pose proof PI_RGT_0 as HPI.
  destruct (Rtotal_order y 0) as [Hy|[Hy|Hy]].
  - rewrite arctan2_neg_nonneg by lra.
    pose proof (atan_bound (s / y)) as Hb.
    assert (atan (s / y) <= 0).
    { apply atan_nonpos. apply Rmult_le_reg_r with (- y); [lra|].
      replace (s / y * - y) with (- s) by (field; lra). lra. }
    split; [lra|]. split; intros; lra.
  - subst y. destruct Hs as [Hs|Hs].
    + rewrite arctan2_0_pos by lra. split; [lra|]. split; intros; lra.
    + subst s. rewrite arctan2_0_0. split; [lra|]. split; intros; lra.
  - rewrite arctan2_pos by lra.
    pose proof (atan_bound (s / y)) as Hb.
    assert (0 <= atan (s / y)).
    { apply atan_nonneg. apply Rmult_le_reg_r with y; [lra|].
      replace (s / y * y) with s by (field; lra). lra. }
    split; [lra|]. split; intros; lra.
Qed.

(** The sky-angular format is the zenith-centred equidistant projection:
    a point that [skyangular2world] marks valid has [y >= 0], and
    [world2skyangular] puts a direction at the distance [phi / pi] from the
    centre of the image, [phi = arctan2(sqrt(x^2 + z^2), y)] in [[0, pi]]
    being its zenith angle, so that the horizon ([phi = pi / 2]) is the
    rim of the disk. *)
Theorem skyangular_is_equidistant_from_zenith :
  (forall u v,
      snd (skyangular2world u v) = true ->
      let '(_, y, _, _) := skyangular2world u v in 0 <= y)
  /\ (forall x y z,
         let phi := arctan2 (sqrt (x ^ 2 + z ^ 2)) y in
         let '(u, v) := world2skyangular x y z in
         0 <= phi <= PI
         /\ (u - 1 / 2) ^ 2 + (v - 1 / 2) ^ 2 = (phi / PI) ^ 2).
Proof.
  pose proof PI_RGT_0 as HPI. split.
  - intros u v Hv. apply skyangular_valid_in_disk in Hv.
    apply disk_radius_bound in Hv. unfold skyangular2world.
    apply cos_ge_0; nra.
  - intros x y z phi. unfold world2skyangular. fold phi.
    destruct (arctan2_zenith (sqrt (x ^ 2 + z ^ 2)) y (sqrt_pos _))
      as [Hp _].
    fold phi in Hp. split; [exact Hp|].
    set (theta := arctan2 x z).
    pose proof (sin2_cos2 theta) as Hsc. unfold Rsqr in Hsc.
    replace ((phi / (PI / 2) * sin theta / 2 + 1 / 2 - 1 / 2) ^ 2
             + (1 / 2 - phi / (PI / 2) * cos theta / 2 - 1 / 2) ^ 2)
      with ((phi / PI) ^ 2 * (sin theta * sin theta + cos theta * cos theta))
      by (field; lra).
    rewrite Hsc, Rmult_1_r. reflexivity.
Qed.

Lemma skyangular_is_equidistant_from_zenith_witness :
  let '(_, y, _, _) := skyangular2world (1 / 2) (1 / 2) in 0 <= y.
Proof.
  apply (proj1 skyangular_is_equidistant_from_zenith (1 / 2) (1 / 2)).
  apply Rleb_true_iff. rewrite lit_half, lit_quarter. lra.
Defined.

(** World -> image -> world on the unit sphere, lat-long: every direction
    comes back, the poles included. *)
Theorem latlong_direction_roundtrip (x y z : R) :
  x ^ 2 + y ^ 2 + z ^ 2 = 1 ->
  let '(u, v) := world2latlong x y z in latlong2world u v = (x, y, z, true).
Proof.
  intros Hunit. pose proof PI_RGT_0 as HPI.
  assert (Hy : -1 <= y <= 1).
  { pose proof (pow2_ge_0 x). pose proof (pow2_ge_0 z). split; nra. }
  unfold world2latlong, latlong2world, arccos.
  replace (PI * ((1 + 1 / PI * arctan2 x (- z)) / 2 * 2 - 1))
    with (arctan2 x (- z)) by (field; lra).
  replace (PI * (1 / PI * acos y)) with (acos y) by (field; lra).
  rewrite cos_acos, sin_acos by exact Hy.
  assert (Hrad : 1 - y² = (- z) ^ 2 + x ^ 2) by (unfold Rsqr; nra).
  rewrite Hrad.
  destruct (Req_dec x 0) as [Hx|Hx]; [destruct (Req_dec z 0) as [Hz|Hz]|].
  - subst x z. replace ((- 0) ^ 2 + 0 ^ 2) with 0 by ring. rewrite sqrt_0.
    repeat f_equal; ring.
  - assert (Hne : - z <> 0 \/ x <> 0) by (left; lra).
    pose proof (hypot_pos _ _ Hne).
    rewrite (sin_arctan2 _ _ Hne), (cos_arctan2 _ _ Hne).
    repeat f_equal; field; lra.
  - assert (Hne : - z <> 0 \/ x <> 0) by (right; lra).
    pose proof (hypot_pos _ _ Hne).
    rewrite (sin_arctan2 _ _ Hne), (cos_arctan2 _ _ Hne).
    repeat f_equal; field; lra.
Qed.

Lemma latlong_direction_roundtrip_witness :
  let '(u, v) := world2latlong 0 1 0 in latlong2world u v = (0, 1, 0, true).
Proof. apply (latlong_direction_roundtrip 0 1 0). ring. Defined.

(** World -> image -> world on the unit sphere, sky-angular: every
    direction comes back, those of the lower hemisphere too (from image
    points outside the valid disk). *)
Theorem skyangular_direction_roundtrip (x y z : R) :
  x ^ 2 + y ^ 2 + z ^ 2 = 1 ->
  let '(u, v) := world2skyangular x y z in
  let '(x', y', z', _) := skyangular2world u v in (x', y', z') = (x, y, z).
Proof.
  intros Hunit. pose proof PI_RGT_0 as HPI.
  unfold world2skyangular, skyangular2world.
  pose proof (sqrt_pos (x ^ 2 + z ^ 2)) as Hs0.
  assert (Hs2 : sqrt (x ^ 2 + z ^ 2) * sqrt (x ^ 2 + z ^ 2) = x ^ 2 + z ^ 2).
  { apply sqrt_sqrt. pose proof (pow2_ge_0 x). pose proof (pow2_ge_0 z). lra. }
  destruct (arctan2_zenith (sqrt (x ^ 2 + z ^ 2)) y Hs0) as [[Hp0 Hp1] _].
  assert (Hne : y <> 0 \/ sqrt (x ^ 2 + z ^ 2) <> 0).
  { destruct (Req_dec y 0) as [Hy|Hy]; [right|left; exact Hy].
    intros H0. rewrite H0 in Hs2. subst y. nra. }
  assert (Hh : sqrt (y ^ 2 + sqrt (x ^ 2 + z ^ 2) ^ 2) = 1).
  { replace (y ^ 2 + sqrt (x ^ 2 + z ^ 2) ^ 2) with 1; [apply sqrt_1|].
    replace (sqrt (x ^ 2 + z ^ 2) ^ 2)
      with (sqrt (x ^ 2 + z ^ 2) * sqrt (x ^ 2 + z ^ 2)) by ring.
    rewrite Hs2. lra. }
  pose proof (cos_arctan2 _ _ Hne) as Hcp.
  pose proof (sin_arctan2 _ _ Hne) as Hsp.
  rewrite Hh in Hcp, Hsp.
  set (s := sqrt (x ^ 2 + z ^ 2)) in *.
  set (phi := arctan2 s y) in *. set (theta := arctan2 x z).
  set (r := phi / (PI / 2)).
  assert (Hr0 : 0 <= r).
  { unfold r, Rdiv. apply Rmult_le_pos; [lra|].
    left. apply Rinv_0_lt_compat. lra. }
  replace (2 * (r * sin theta / 2 + 1 / 2) - 1) with (r * sin theta)
    by field.
  replace (- 2 * (1 / 2 - r * cos theta / 2) + 1) with (r * cos theta)
    by field.
  replace ((2 * (1 / 2 - r * cos theta / 2) - 1) ^ 2)
    with ((r * cos theta) ^ 2) by field.
  rewrite (Rplus_comm ((r * sin theta) ^ 2)), hypot_polar by exact Hr0.
  replace (PI / 2 * r) with phi by (unfold r; field; lra).
  rewrite Hcp, Hsp.
  replace (s / 1) with s by field. replace (y / 1) with y by field.
  destruct (Req_dec s 0) as [Hz|Hnz].
  - rewrite Hz in *. rewrite !Rmult_0_l.
    assert (x ^ 2 + z ^ 2 = 0) by lra.
    pose proof (pow2_ge_0 x). pose proof (pow2_ge_0 z).
    assert (x = 0) by nra. assert (z = 0) by nra. subst x z. reflexivity.
  - assert (Hspos : 0 < s) by lra.
    assert (Hxz : z <> 0 \/ x <> 0).
    { destruct (Req_dec z 0) as [Hz|Hz]; [right|left; exact Hz].
      intros Hx. subst x z. unfold s in Hnz. apply Hnz.
      replace (0 ^ 2 + 0 ^ 2) with 0 by ring. apply sqrt_0. }
    assert (Hrpos : 0 < r).
    { unfold r. apply Rdiv_lt_0_compat; [|lra].
      destruct Hp0 as [Hp0|Hp0]; [exact Hp0|].
      rewrite <- Hp0, sin_0 in Hsp. lra. }
    pose proof (cos_arctan2 _ _ Hxz) as Hct.
    pose proof (sin_arctan2 _ _ Hxz) as Hst.
    rewrite (Rplus_comm (z ^ 2)) in Hct, Hst. fold s theta in Hct, Hst.
    assert (Hne' : r * sin theta <> 0 \/ r * cos theta <> 0)
      by (apply polar_nonzero; exact Hrpos).
    rewrite (cos_arctan2 _ _ Hne'), (sin_arctan2 _ _ Hne').
    rewrite (Rplus_comm ((r * sin theta) ^ 2)), hypot_polar by exact Hr0.
    rewrite Hct, Hst. repeat f_equal; field; lra.
Qed.

Lemma skyangular_direction_roundtrip_witness :
  let '(u, v) := world2skyangular 0 (- 1) 0 in
  let '(x', y', z', _) := skyangular2world u v in
  (x', y', z') = (0, - 1, 0).
Proof. apply (skyangular_direction_roundtrip 0 (- 1) 0). ring. Defined.

(** The lat-long image wraps around: its left and right edges are the same
    directions, its top row is the one direction [(0, 1, 0)] and its bottom
    row [(0, -1, 0)]. *)
Theorem latlong_seam_and_poles :
  (forall v, latlong2world 0 v = latlong2world 1 v)
  /\ (forall u, latlong2world u 0 = (0, 1, 0, true))
  /\ (forall u, latlong2world u 1 = (0, - 1, 0, true)).
Proof.
  split; [|split].
  - intros v. unfold latlong2world.
    replace (PI * (0 * 2 - 1)) with (- PI) by ring.
    replace (PI * (1 * 2 - 1)) with PI by ring.
    rewrite sin_neg, cos_neg, sin_PI. repeat f_equal. ring.
  - intros u. unfold latlong2world.
    rewrite Rmult_0_r, sin_0, cos_0. repeat f_equal; ring.
  - intros u. unfold latlong2world.
    rewrite Rmult_1_r, sin_PI, cos_PI. repeat f_equal; ring.
Qed.

(* ------------------------------------------------------------------ *)
(** * Pixel centres and world coordinates                              *)
(* ------------------------------------------------------------------ *)

Lemma imageCoordinates_get self i j :
  (i < shape_0 (data self))%nat -> (j < shape_1 (data self))%nat ->
  get2 0 (fst (imageCoordinates self)) i j
  = (2 * INR j + 1) / (2 * INR (shape_1 (data self)))
  /\ get2 0 (snd (imageCoordinates self)) i j
     = (2 * INR i + 1) / (2 * INR (shape_0 (data self))).
Proof.
  intros Hi Hj. rewrite imageCoordinates_eq.
  pose proof (meshgrid_spec (bin_centers (shape_1 (data self)))
                (bin_centers (shape_0 (data self)))) as H.
  destruct (meshgrid _ _) as [U V]. cbn [fst snd].
  rewrite !length_bin_centers in H. destruct H as (_ & _ & _ & _ & Hget).
  destruct (Hget i j Hi Hj) as [HU HV]. rewrite HU, HV.
  unfold bin_centers. rewrite !nth_pixel_center by assumption.
  split; reflexivity.
Qed.

Lemma pixel_center_inside (n k : nat) :
  (k < n)%nat -> 0 < (2 * INR k + 1) / (2 * INR n) < 1.
Proof.
  intros Hk.
  assert (Hn : 0 < INR n) by (apply lt_0_INR; lia).
  assert (Hk0 : 0 <= INR k) by apply pos_INR.
  assert (Hkn : INR k + 1 <= INR n).
  { rewrite <- S_INR. apply le_INR. lia. }
  split.
  - apply Rdiv_lt_0_compat; lra.
  - apply Rmult_lt_reg_r with (2 * INR n); [lra|].
    replace ((2 * INR k + 1) / (2 * INR n) * (2 * INR n))
      with (2 * INR k + 1) by (field; lra).
    lra.
Qed.

Local Open Scope nat_scope.

Lemma index2_lt (n m i j : nat) : i < n -> j < m -> i * m + j < n * m.
Proof.
  intros Hi Hj. pose proof (index_lt n m 1 i j 0 Hi Hj ltac:(lia)). lia.
Qed.

Lemma nth_map_at {A B} (f : A -> B) (l : list A) (k : nat) d d' :
  k < length l -> nth k (map f l) d = f (nth k l d').
Proof.
  intros Hk. rewrite (nth_indep _ d (f d')) by (rewrite length_map; exact Hk).
  apply map_nth.
Qed.

Lemma wf2_amap {A B} (f : A -> B) (a : array2 A) : wf2 a -> wf2 (amap f a).
Proof. unfold wf2, amap, nrows, ncols. cbn. rewrite length_map. auto. Qed.

Lemma wf2_azip {A B} (a : array2 A) (b : array2 B) :
  wf2 a -> wf2 b -> shape2 a = shape2 b -> wf2 (azip a b).
Proof.
  unfold wf2, azip, nrows, ncols. cbn. intros Ha Hb Hs.
  rewrite length_combine, Ha, Hb, Hs. apply Nat.min_id.
Qed.

Lemma get2_amap {A B} (f : A -> B) (a : array2 A) i j d d' :
  wf2 a -> i < nrows a -> j < ncols a ->
  get2 d (amap f a) i j = f (get2 d' a i j).
Proof.
  intros Hwf Hi Hj. unfold get2, amap, ncols. cbn [shape2 buf2].
  apply nth_map_at. rewrite Hwf. apply index2_lt; assumption.
Qed.

Lemma get2_azip {A B} (a : array2 A) (b : array2 B) i j da db :
  wf2 a -> wf2 b -> shape2 a = shape2 b ->
  get2 (da, db) (azip a b) i j = (get2 da a i j, get2 db b i j).
Proof.
  intros Ha Hb Hs. unfold get2, azip, ncols. cbn [shape2 buf2].
  rewrite Hs. apply combine_nth. rewrite Ha, Hb.
  unfold nrows, ncols. rewrite Hs. reflexivity.
Qed.

Lemma imageCoordinates_wf self :
  let '(U, V) := imageCoordinates self in
  shape2 U = (shape_0 (data self), shape_1 (data self))
  /\ shape2 V = (shape_0 (data self), shape_1 (data self))
  /\ wf2 U /\ wf2 V.
Proof.
  rewrite imageCoordinates_eq.
  pose proof (meshgrid_spec (bin_centers (shape_1 (data self)))
                (bin_centers (shape_0 (data self)))) as H.
  destruct (meshgrid _ _) as [U V].
  rewrite !length_bin_centers in H. destruct H as (HU & HV & HwU & HwV & _).
  auto.
Qed.

Lemma lower_ascii_idempotent c : lower_ascii (lower_ascii c) = lower_ascii c.
Proof.
  destruct c as [[] [] [] [] [] [] [] []]; reflexivity.
Qed.

Lemma lower_idempotent s : lower (lower s) = lower s.
Proof.
  induction s as [|c s IH]; cbn [lower]; [reflexivity|].
  rewrite lower_ascii_idempotent, IH. reflexivity.
Qed.

Lemma supported_In f : supported f = true <-> In f SUPPORTED_FORMATS.
Proof.
  unfold supported. rewrite existsb_exists. split.
  - intros (g & Hg & Heq). apply String.eqb_eq in Heq. subst g. exact Hg.
  - intros H. exists f. split; [exact H|apply String.eqb_refl].
Qed.

(** [__init__] does not see the case of the format identifier, and the tag
    of every map it builds is one of [SUPPORTED_FORMATS]: the map is built
    around the image it was given, with the identifier lowercased. *)
Theorem init_is_case_insensitive :
  (forall im f, __init__ im (lower f) = __init__ im f)
  /\ (forall im f self,
         __init__ im f = Returned self ->
         In (format_ self) SUPPORTED_FORMATS
         /\ format_ self = lower f /\ data self = im).
Proof.
  split.
  - intros im f. unfold __init__. rewrite lower_idempotent. reflexivity.
  - intros im f self H. apply init_inv in H. destruct H as [Hs ->].
    cbn [format_ data]. split; [|auto]. apply supported_In. exact Hs.
Qed.

Lemma init_is_case_insensitive_witness :
  In (format_ example_map) SUPPORTED_FORMATS
  /\ format_ example_map = lower "LATLONG" /\ data example_map = zeros (2, 2, 1).
Proof.
  apply (proj2 init_is_case_insensitive (zeros (2, 2, 1)) "LATLONG"%string).
  reflexivity.
Defined.

(** The two dispatching methods return exactly when the tag is a key of
    the registry; with any other tag the lookup yields [None] and the call
    raises [TypeError], whatever the arguments. *)
Theorem dispatch_returns_iff_tag_supported (self : EnvironmentMap) :
  (In (format_ self) SUPPORTED_FORMATS ->
   (forall u v, exists r, image2world self u v = Returned r)
   /\ (forall x y z, exists r, world2image self x y z = Returned r))
  /\ (~ In (format_ self) SUPPORTED_FORMATS ->
      (forall u v, image2world self u v = Raised TypeError)
      /\ (forall x y z, world2image self x y z = Raised TypeError)).
Proof.
  unfold image2world, world2image. split.
  - intros H. apply supported_In in H.
    destruct (supported_dispatch _ H) as (g & h & Hg & Hh).
    rewrite Hg, Hh. split; intros; eexists; reflexivity.
  - intros H.
    assert (Hs : supported (format_ self) = false).
    { destruct (supported (format_ self)) eqn:E; [|reflexivity].
      exfalso. apply H. apply supported_In. exact E. }
    unfold supported, SUPPORTED_FORMATS in Hs. cbn [existsb] in Hs.
    unfold image2world_func, world2image_func.
    destruct (format_ self =? "angular")%string; [discriminate|].
    destruct (format_ self =? "skyangular")%string; [discriminate|].
    destruct (format_ self =? "latlong")%string; [discriminate|].
    split; intros; reflexivity.
Qed.

Lemma dispatch_returns_iff_tag_supported_witness :
  (forall u v, exists r, image2world example_map u v = Returned r)
  /\ (forall x y z, exists r, world2image example_map x y z = Returned r).
Proof.
  apply (proj1 (dispatch_returns_iff_tag_supported example_map)).
  cbn. auto.
Defined.

Local Open Scope R_scope.

Lemma dispatch_unit_sphere f g :
  image2world_func f = Some g ->
  forall u v, let '(x, y, z, _) := g u v in x ^ 2 + y ^ 2 + z ^ 2 = 1.
Proof.
  intros Hg u v. unfold image2world_func in Hg.
  destruct (f =? "angular")%string;
    [|destruct (f =? "skyangular")%string;
      [|destruct (f =? "latlong")%string; [|discriminate]]];
    injection Hg as <-.
  - unfold angular2world.
    pose proof (sin_cos_sphere
      (PI * sqrt ((2 * u - 1) ^ 2 + (2 * v - 1) ^ 2))
      (arctan2 (- 2 * v + 1) (2 * u - 1))). nra.
  - unfold skyangular2world.
    pose proof (sin_cos_sphere
      (PI / 2 * sqrt ((2 * u - 1) ^ 2 + (2 * v - 1) ^ 2))
      (arctan2 (- 2 * v + 1) (2 * u - 1))). nra.
  - unfold latlong2world.
    pose proof (sin_cos_sphere (PI * v) (PI * (u * 2 - 1))). nra.
Qed.

(** [worldCoordinates] of a map whose tag dispatches to [g]: four arrays of
    the map's spatial shape, the mask boolean; entry [(i, j)] of each is the
    component of [g] at the centre of pixel [(i, j)], and the direction there
    has unit length. *)
Theorem worldCoordinates_at_pixel_centers (self : EnvironmentMap)
    (g : R -> R -> R * R * R * bool) :
  image2world_func (format_ self) = Some g ->
  exists X Y Z valid,
    worldCoordinates self = Returned (X, Y, Z, valid)
    /\ (shape2 X = (shape_0 (data self), shape_1 (data self))
        /\ shape2 Y = (shape_0 (data self), shape_1 (data self))
        /\ shape2 Z = (shape_0 (data self), shape_1 (data self))
        /\ mask_fits valid (data self))
    /\ forall i j,
         (i < shape_0 (data self))%nat -> (j < shape_1 (data self))%nat ->
         let '(x, y, z, ok) :=
           g ((2 * INR j + 1) / (2 * INR (shape_1 (data self))))
             ((2 * INR i + 1) / (2 * INR (shape_0 (data self)))) in
         get2 0 X i j = x /\ get2 0 Y i j = y /\ get2 0 Z i j = z
         /\ get2 true (marr valid) i j = ok
         /\ x ^ 2 + y ^ 2 + z ^ 2 = 1.
Proof.
  intros Hg. unfold worldCoordinates.
  pose proof (imageCoordinates_wf self) as Hwf.
  pose proof (imageCoordinates_get self) as Hget.
  destruct (imageCoordinates self) as [U V]. cbn [fst snd] in Hget.
  destruct Hwf as (HsU & HsV & HwU & HwV).
  unfold image2world. rewrite Hg.
  do 4 eexists. split; [reflexivity|].
  split; [cbn [amap azip shape2]; unfold mask_fits; cbn; auto|].
  intros i j Hi Hj.
  destruct (Hget i j Hi Hj) as [HU HV].
  assert (Hz : wf2 (azip U V)) by (apply wf2_azip; congruence).
  assert (Hi' : (i < nrows (azip U V))%nat)
    by (unfold nrows; cbn [azip shape2]; rewrite HsU; exact Hi).
  assert (Hj' : (j < ncols (azip U V))%nat)
    by (unfold ncols; cbn [azip shape2]; rewrite HsU; exact Hj).
  assert (Hr : forall d,
             get2 d (amap (fun p => g (fst p) (snd p)) (azip U V)) i j
             = g ((2 * INR j + 1) / (2 * INR (shape_1 (data self))))
                 ((2 * INR i + 1) / (2 * INR (shape_0 (data self))))).
  { intros d. rewrite (get2_amap _ _ i j d (0, 0)) by assumption.
    rewrite get2_azip by congruence. cbn [fst snd]. rewrite HU, HV.
    reflexivity. }
  pose proof (dispatch_unit_sphere _ _ Hg
                ((2 * INR j + 1) / (2 * INR (shape_1 (data self))))
                ((2 * INR i + 1) / (2 * INR (shape_0 (data self))))) as Hs.
  cbn [marr].
  rewrite !(get2_amap _ (amap _ (azip U V)) i j _ (0, 0, 0, true))
    by (try apply wf2_amap; assumption).
  rewrite Hr.
  destruct (g _ _) as [[[x y] z] ok]. cbn [fst snd]. auto.
Qed.

Lemma worldCoordinates_at_pixel_centers_witness :
  exists X Y Z valid,
    worldCoordinates example_map = Returned (X, Y, Z, valid)
    /\ mask_fits valid (data example_map).
Proof.
  destruct (worldCoordinates_at_pixel_centers example_map latlong2world
              eq_refl) as (X & Y & Z & valid & Hrun & (_ & _ & _ & Hfit) & _).
  exists X, Y, Z, valid. auto.
Defined.

(* ------------------------------------------------------------------ *)
(** * More on background filling                                       *)
(* ------------------------------------------------------------------ *)

Local Open Scope nat_scope.

Lemma paint_channels_stops cs1 c cs2 valid self :
  (forall c', In c' cs1 -> c' < length (backgroundColor self)) ->
  length (backgroundColor self) <= c ->
  paint_channels (cs1 ++ c :: cs2) valid self
  = (Raised IndexError,
     mkEnvironmentMap
       (painted (data self) cs1 valid (backgroundColor self))
       (format_ self) (backgroundColor self)).
Proof.
  revert self. induction cs1 as [|c1 cs1 IH]; intros self Hin Hc.
  - cbn [app paint_channels]. unfold bind, get_self.
    destruct (nth_error (backgroundColor self) c) as [x|] eqn:E.
    + assert (c < length (backgroundColor self))
        by (apply nth_error_Some; congruence). lia.
    + destruct self. reflexivity.
  - cbn [app paint_channels]. unfold bind at 1. unfold get_self.
    destruct (nth_error (backgroundColor self) c1) as [x|] eqn:E.
    + unfold bind, set_data. rewrite IH.
      * cbn [data format_ backgroundColor]. unfold painted.
        cbn [fold_left]. rewrite (nth_error_nth _ _ NaN E). reflexivity.
      * cbn [backgroundColor]. intros c0 Hc0. apply Hin. right. exact Hc0.
      * cbn [backgroundColor]. exact Hc.
    + apply nth_error_None in E.
      specialize (Hin c1 (or_introl eq_refl)). lia.
Qed.

Lemma existsb_seq_ltb (c n : nat) :
  existsb (Nat.eqb c) (seq 0 n) = (c <? n).
Proof.
  destruct (c <? n) eqn:E.
  - apply existsb_seq. apply Nat.ltb_lt. exact E.
  - apply Nat.ltb_ge in E.
    destruct (existsb (Nat.eqb c) (seq 0 n)) eqn:Ex; [|reflexivity].
    apply existsb_exists in Ex. destruct Ex as (k & Hk & Heq).
    apply in_seq in Hk. apply Nat.eqb_eq in Heq. lia.
Qed.

(** A colour with fewer entries than the map has channels: the mask passes
    both assertions, the colour is stored, the channels the colour covers
    are filled, and the loop raises [IndexError] at the first channel past
    the end of the colour, leaving the remaining channels as they were. *)
Theorem setBackgroundColor_short_color color valid self :
  wf3 (data self) -> mask_fits valid (data self) ->
  length color < shape_2 (data self) ->
  exists self',
    setBackgroundColor color valid self = (Raised IndexError, self')
    /\ backgroundColor self' = color /\ format_ self' = format_ self
    /\ forall i j c,
         i < shape_0 (data self) -> j < shape_1 (data self) ->
         c < shape_2 (data self) ->
         get3 NaN (data self') i j c
         = if (c <? length color) && negb (get2 true (marr valid) i j)
           then nth c color NaN
           else get3 NaN (data self) i j c.
Proof.
  intros Hwf Hfit Hlen.
  rewrite setBackgroundColor_passes by exact Hfit.
  replace (seq 0 (shape_2 (data self)))
    with (seq 0 (length color)
          ++ length color
             :: seq (S (length color))
                    (shape_2 (data self) - S (length color))).
  - rewrite paint_channels_stops.
    + eexists. split; [reflexivity|]. cbn [data format_ backgroundColor].
      split; [reflexivity|]. split; [reflexivity|].
      intros i j c Hi Hj Hc. rewrite painted_get by assumption.
      rewrite existsb_seq_ltb. unfold get2, ncols.
      destruct Hfit as [_ Hsh]. rewrite Hsh. reflexivity.
    + cbn [backgroundColor]. intros c Hc. apply in_seq in Hc. lia.
    + cbn [backgroundColor]. lia.
  - replace (length color :: seq (S (length color))
                                (shape_2 (data self) - S (length color)))
      with (seq (length color) (shape_2 (data self) - length color)).
    + rewrite <- seq_app. f_equal. lia.
    + replace (shape_2 (data self) - length color)
        with (S (shape_2 (data self) - S (length color))) by lia.
      reflexivity.
Qed.

Lemma setBackgroundColor_short_color_witness :
  exists self',
    setBackgroundColor [] example_mask example_map
    = (Raised IndexError, self')
    /\ backgroundColor self' = [] /\ format_ self' = format_ example_map.
Proof.
  destruct (setBackgroundColor_short_color [] example_mask example_map)
    as (self' & Hrun & Hbg & Hf & _).
  - reflexivity.
  - split; reflexivity.
  - cbn. lia.
  - exists self'. auto.
Defined.

(** Filling twice with one mask: the second colour wins on the invalid
    pixels and the valid pixels still hold what they held at the start, so
    the result is, pixel for pixel, that of the second fill alone. *)
Theorem setBackgroundColor_twice color1 color2 valid self :
  wf3 (data self) -> mask_fits valid (data self) ->
  shape_2 (data self) <= length color1 ->
  shape_2 (data self) <= length color2 ->
  exists self1 self2 self2',
    setBackgroundColor color1 valid self = (Returned tt, self1)
    /\ setBackgroundColor color2 valid self1 = (Returned tt, self2)
    /\ setBackgroundColor color2 valid self = (Returned tt, self2')
    /\ backgroundColor self2 = color2
    /\ shape3 (data self2) = shape3 (data self2')
    /\ forall i j c,
         i < shape_0 (data self) -> j < shape_1 (data self) ->
         c < shape_2 (data self) ->
         get3 NaN (data self2) i j c = get3 NaN (data self2') i j c.
Proof.
  intros Hwf Hfit H1 H2.
  pose proof (painted_shape (data self) (seq 0 (shape_2 (data self)))
                (marr valid) color1) as Hsh1.
  set (d1 := painted (data self) (seq 0 (shape_2 (data self))) (marr valid)
               color1) in *.
  assert (Hs0 : shape_0 d1 = shape_0 (data self))
    by (unfold shape_0; rewrite Hsh1; reflexivity).
  assert (Hs1 : shape_1 d1 = shape_1 (data self))
    by (unfold shape_1; rewrite Hsh1; reflexivity).
  assert (Hs2 : shape_2 d1 = shape_2 (data self))
    by (unfold shape_2; rewrite Hsh1; reflexivity).
  assert (Hfit1 : mask_fits valid d1).
  { destruct Hfit as [Hdt Hs]. split; [exact Hdt|]. rewrite Hs0, Hs1.
    exact Hs. }
  assert (Hwf1 : wf3 d1) by (apply painted_wf; exact Hwf).
  do 3 eexists.
  split; [apply setBackgroundColor_ok; assumption|].
  split; [apply setBackgroundColor_ok; cbn [data]; fold d1;
          [exact Hfit1 | rewrite Hs2; exact H2]|].
  split; [apply setBackgroundColor_ok; assumption|].
  cbn [data backgroundColor]. fold d1. rewrite Hs2.
  split; [reflexivity|].
  split; [rewrite !painted_shape; exact Hsh1|].
  intros i j c Hi Hj Hc.
  pose proof (setBackgroundColor_pixels color2 valid
                (mkEnvironmentMap d1 (format_ self) color1) i j c) as Hp.
  cbn [data] in Hp. rewrite Hs0, Hs1, Hs2 in Hp.
  rewrite Hp by assumption.
  rewrite (setBackgroundColor_pixels color2 valid self i j c) by assumption.
  destruct (get2 true (marr valid) i j) eqn:Ev; [|reflexivity].
  unfold d1.
  rewrite (setBackgroundColor_pixels color1 valid self i j c) by assumption.
  rewrite Ev. reflexivity.
Qed.

Lemma setBackgroundColor_twice_witness :
  exists self1 self2 self2',
    setBackgroundColor [Num 1] example_mask example_map
    = (Returned tt, self1)
    /\ setBackgroundColor [Num 2] example_mask self1 = (Returned tt, self2)
    /\ setBackgroundColor [Num 2] example_mask example_map
       = (Returned tt, self2')
    /\ backgroundColor self2 = [Num 2].
Proof.
  destruct (setBackgroundColor_twice [Num 1] [Num 2] example_mask
              example_map)
    as (s1 & s2 & s2' & Ha & Hb & Hc & Hd & _).
  - reflexivity.
  - split; reflexivity.
  - cbn. lia.
  - cbn. lia.
  - exists s1, s2, s2'. auto.
Defined.

(* ------------------------------------------------------------------ *)
(** * Maps that cannot be resampled                                    *)
(* ------------------------------------------------------------------ *)

Lemma interpolate_channels_mismatch linear src coords target c cs data0 :
  shape_0 src <> length (fst coords)
  \/ shape_1 src <> length (snd coords)
  \/ length target <> shape_0 data0 * shape_1 data0 ->
  interpolate_channels linear src coords target (c :: cs) data0
  = Raised ValueError.
Proof.
  intros H. cbn [interpolate_channels]. unfold RegularGridInterpolator.
  replace (nrows (channel src c)) with (shape_0 src) by reflexivity.
  replace (ncols (channel src c)) with (shape_1 src) by reflexivity.
  destruct (shape_0 src =? length (fst coords)) eqn:E0;
    [|reflexivity].
  destruct (shape_1 src =? length (snd coords)) eqn:E1;
    [|reflexivity].
  cbn [andb obind]. unfold reshape. rewrite length_map.
  destruct (length target =? shape_0 data0 * shape_1 data0) eqn:E2;
    [|reflexivity].
  apply Nat.eqb_eq in E0, E1, E2. exfalso. destruct H as [H|[H|H]]; auto.
Qed.

(** [interpolate] gives up before it assigns anything: on a map with no
    rows or no columns it raises [IndexError]; on a map with pixels and at
    least one channel it raises [ValueError] when [u] and [v] differ in
    size, when the map is not square (the grid of the interpolator is
    [(cols, rows)], its values are [rows] x [cols]), or when the query does
    not hold [rows * cols] points.  The map is left as it was. *)
Theorem interpolate_rejects linear u v valid self :
  (shape_0 (data self) = 0 \/ shape_1 (data self) = 0 ->
   interpolate linear u v valid self = (Raised IndexError, self))
  /\ (0 < shape_0 (data self) -> 0 < shape_1 (data self) ->
      0 < shape_2 (data self) ->
      length (flatten u) <> length (flatten v)
      \/ shape_0 (data self) <> shape_1 (data self)
      \/ length (flatten u) <> shape_0 (data self) * shape_1 (data self) ->
      interpolate linear u v valid self = (Raised ValueError, self)).
Proof.
  rewrite interpolate_eq. split.
  - intros [H|H].
    + rewrite H. reflexivity.
    + rewrite H. destruct (shape_0 (data self) =? 0); reflexivity.
  - intros H0 H1 H2 H.
    destruct (Nat.eqb_neq (shape_0 (data self)) 0) as [_ E0].
    destruct (Nat.eqb_neq (shape_1 (data self)) 0) as [_ E1].
    rewrite E0, E1 by lia. unfold vstack_T.
    destruct (length (flatten u) =? length (flatten v)) eqn:Euv;
      [|reflexivity].
    apply Nat.eqb_eq in Euv.
    destruct (shape_2 (data self)) as [|k] eqn:Ek; [lia|].
    cbn [seq]. rewrite interpolate_channels_mismatch; [reflexivity|].
    cbn [fst snd]. rewrite !length_bin_centers, shape_zeros_0, shape_zeros_1.
    cbn [fst snd]. rewrite length_combine, <- Euv, Nat.min_id.
    destruct H as [H|[H|H]]; [contradiction|left; exact H|].
    right. right. rewrite Nat.mul_comm. exact H.
Qed.

Lemma interpolate_rejects_witness :
  interpolate linear_in_grid example_query_row example_query_outside
    example_mask
    (mkEnvironmentMap (zeros (2, 3, 1)) "latlong" [Num 0; Num 0; Num 0])
  = (Raised ValueError,
     mkEnvironmentMap (zeros (2, 3, 1)) "latlong" [Num 0; Num 0; Num 0]).
Proof.
  apply (proj2 (interpolate_rejects linear_in_grid example_query_row
                  example_query_outside example_mask
                  (mkEnvironmentMap (zeros (2, 3, 1)) "latlong"
                     [Num 0; Num 0; Num 0]))); cbn; lia.
Defined.

(** [convertTo] sets the tag before it resamples: with a supported target,
    on a map whose own tag is a registry key, an empty map makes it raise
    [IndexError] and a map that is not square (with pixels and a channel)
    [ValueError], in both cases with the pixel buffer and the background
    colour as they were and the tag already the target. *)
Theorem convertTo_fails_after_setting_tag linear targetFormat self :
  supported (lower targetFormat) = true ->
  supported (format_ self) = true ->
  (shape_0 (data self) = 0 \/ shape_1 (data self) = 0 ->
   convertTo linear targetFormat self
   = (Raised IndexError,
      mkEnvironmentMap (data self) targetFormat (backgroundColor self)))
  /\ (0 < shape_0 (data self) -> 0 < shape_1 (data self) ->
      0 < shape_2 (data self) ->
      shape_0 (data self) <> shape_1 (data self) ->
      convertTo linear targetFormat self
      = (Raised ValueError,
         mkEnvironmentMap (data self) targetFormat (backgroundColor self))).
Proof.
  intros Ht Hs.
  destruct (convertTo_reaches_interpolate linear targetFormat self Ht Hs)
    as (u & v & valid & Hrun & _).
  rewrite Hrun. split.
  - intros H. apply interpolate_rejects. exact H.
  - intros H0 H1 H2 H. apply interpolate_rejects; auto.
Qed.

Lemma convertTo_fails_after_setting_tag_witness :
  convertTo linear_in_grid "angular"
    (mkEnvironmentMap (zeros (2, 3, 1)) "latlong" [Num 0; Num 0; Num 0])
  = (Raised ValueError,
     mkEnvironmentMap (zeros (2, 3, 1)) "angular" [Num 0; Num 0; Num 0]).
Proof.
  apply (proj2 (convertTo_fails_after_setting_tag linear_in_grid "angular"
                  (mkEnvironmentMap (zeros (2, 3, 1)) "latlong"
                     [Num 0; Num 0; Num 0]) eq_refl eq_refl)); cbn; lia.
Defined.

(** A map whose tag is not a registry key cannot be converted: the target
    passes the assertion, but [world2image] raises [TypeError] before
    anything is assigned, and the map is left as it was. *)
Theorem convertTo_from_unknown_tag linear targetFormat self :
  supported (lower targetFormat) = true ->
  supported (format_ self) = false ->
  convertTo linear targetFormat self = (Raised TypeError, self).
Proof.
  intros Ht Hs.
  destruct (supported_dispatch _ Ht) as (g & _ & Hg & _).
  assert (Hh : world2image_func (format_ self) = None).
  { unfold supported, SUPPORTED_FORMATS in Hs. cbn [existsb] in Hs.
    unfold world2image_func.
    destruct (format_ self =? "angular")%string; [discriminate|].
    destruct (format_ self =? "skyangular")%string; [discriminate|].
    destruct (format_ self =? "latlong")%string; [discriminate|].
    reflexivity. }
  unfold convertTo. unfold bind at 1. rewrite Ht. cbn [assert_].
  unfold ret at 1. unfold bind at 1. unfold get_self at 1.
  unfold bind at 1. unfold try_ at 1. unfold __init__. rewrite Ht.
  unfold bind at 1. unfold try_ at 1. unfold worldCoordinates.
  destruct (imageCoordinates _) as [U V].
  unfold image2world. cbn [format_]. rewrite Hg.
  unfold bind at 1. unfold try_ at 1. unfold world2image. rewrite Hh.
  reflexivity.
Qed.

Lemma convertTo_from_unknown_tag_witness :
  convertTo linear_in_grid "angular"
    (mkEnvironmentMap (zeros (2, 2, 1)) "LatLong" [Num 0; Num 0; Num 0])
  = (Raised TypeError,
     mkEnvironmentMap (zeros (2, 2, 1)) "LatLong" [Num 0; Num 0; Num 0]).
Proof.
  apply (convertTo_from_unknown_tag linear_in_grid "angular"); reflexivity.
Defined.

(* ------------------------------------------------------------------ *)
(** * What a conversion computes                                       *)
(* ------------------------------------------------------------------ *)

Lemma conversion_arrays_spec g h self :
  let '(u, v, valid) := conversion_arrays g h self in
  (shape2 u = (shape_0 (data self), shape_1 (data self))
   /\ shape2 v = (shape_0 (data self), shape_1 (data self))
   /\ wf2 u /\ wf2 v /\ mask_fits valid (data self))
  /\ forall i j,
       i < shape_0 (data self) -> j < shape_1 (data self) ->
       (get2 0%R u i j, get2 0%R v i j)
       = conversion_query g h
           ((2 * INR j + 1) / (2 * INR (shape_1 (data self))))%R
           ((2 * INR i + 1) / (2 * INR (shape_0 (data self))))%R
       /\ get2 true (marr valid) i j
          = snd (g ((2 * INR j + 1) / (2 * INR (shape_1 (data self))))%R
                   ((2 * INR i + 1) / (2 * INR (shape_0 (data self))))%R).
Proof.
  unfold conversion_arrays.
  pose proof (imageCoordinates_wf self) as Hwf.
  pose proof (imageCoordinates_get self) as Hget.
  destruct (imageCoordinates self) as [U V]. cbn [fst snd] in Hget.
  destruct Hwf as (HsU & HsV & HwU & HwV).
  assert (Hz : wf2 (azip U V)) by (apply wf2_azip; congruence).
  set (r := amap (fun p => g (fst p) (snd p)) (azip U V)).
  assert (Hr : wf2 r) by (apply wf2_amap; exact Hz).
  assert (Hsr : shape2 r = (shape_0 (data self), shape_1 (data self)))
    by exact HsU.
  set (dx := amap (fun t => fst (fst (fst t))) r).
  set (dy := amap (fun t => snd (fst (fst t))) r).
  set (dz := amap (fun t => snd (fst t)) r).
  assert (Hxy : wf2 (azip dx dy))
    by (apply wf2_azip; try apply wf2_amap; auto).
  assert (Hxyz : wf2 (azip (azip dx dy) dz))
    by (apply wf2_azip; try apply wf2_amap; auto).
  set (q := amap (fun p => h (fst (fst p)) (snd (fst p)) (snd p))
              (azip (azip dx dy) dz)).
  assert (Hq : wf2 q) by (apply wf2_amap; exact Hxyz).
  split.
  - repeat split; try exact Hsr; try (apply wf2_amap; assumption).
  - intros i j Hi Hj. destruct (Hget i j Hi Hj) as [HU HV].
    assert (Hi' : forall A (a : array2 A),
               shape2 a = (shape_0 (data self), shape_1 (data self)) ->
               i < nrows a /\ j < ncols a).
    { intros A a Ha. unfold nrows, ncols. rewrite Ha. auto. }
    assert (Hrv : forall d,
               get2 d r i j
               = g ((2 * INR j + 1) / (2 * INR (shape_1 (data self))))%R
                   ((2 * INR i + 1) / (2 * INR (shape_0 (data self))))%R).
    { intros d. unfold r.
      rewrite (get2_amap _ _ i j d (0%R, 0%R));
        [|exact Hz|apply Hi'; exact HsU|apply Hi'; exact HsU].
      rewrite get2_azip by congruence. cbn [fst snd]. rewrite HU, HV.
      reflexivity. }
    cbn [marr].
    rewrite (get2_amap fst q i j 0%R (0%R, 0%R));
      [|exact Hq|apply Hi'; exact Hsr|apply Hi'; exact Hsr].
    rewrite (get2_amap snd q i j 0%R (0%R, 0%R));
      [|exact Hq|apply Hi'; exact Hsr|apply Hi'; exact Hsr].
    rewrite (get2_amap snd r i j true (0%R, 0%R, 0%R, true));
      [|exact Hr|apply Hi'; exact Hsr|apply Hi'; exact Hsr].
    unfold q.
    rewrite (get2_amap _ _ i j (0%R, 0%R) (0%R, 0%R, 0%R));
      [|exact Hxyz|apply Hi'; exact Hsr|apply Hi'; exact Hsr].
    rewrite !get2_azip by (try apply wf2_amap; auto).
    unfold dx, dy, dz.
    rewrite !(get2_amap _ r i j 0%R (0%R, 0%R, 0%R, true));
      try exact Hr; try (apply Hi'; exact Hsr).
    rewrite !Hrv. unfold conversion_query. cbn [fst snd].
    destruct (g _ _) as [[[x y] z] ok]. cbn [fst snd].
    split; [|reflexivity]. destruct (h x y z); reflexivity.
Qed.

Lemma imageCoordinates_shape_only a b :
  shape3 (data a) = shape3 (data b) ->
  imageCoordinates a = imageCoordinates b.
Proof.
  intros H. unfold imageCoordinates, shape_0, shape_1. rewrite H.
  reflexivity.
Qed.

Section ConversionFacts.

Variable linear : list R -> list R -> array2 sample -> R * R -> sample.

Lemma convertTo_to_interpolate targetFormat self g h :
  supported (lower targetFormat) = true ->
  image2world_func (lower targetFormat) = Some g ->
  world2image_func (format_ self) = Some h ->
  convertTo linear targetFormat self
  = let '(u, v, valid) := conversion_arrays g h self in
    interpolate linear u v valid
      (mkEnvironmentMap (data self) targetFormat (backgroundColor self)).
Proof.
  intros Ht Hg Hh.
  unfold convertTo. unfold bind at 1. rewrite Ht. cbn [assert_].
  unfold ret at 1. unfold bind at 1. unfold get_self at 1.
  unfold bind at 1. unfold try_ at 1. unfold __init__. rewrite Ht.
  unfold bind at 1. unfold try_ at 1. unfold worldCoordinates.
  rewrite (imageCoordinates_shape_only _ self)
    by (cbn [data]; apply zeros_shape).
  unfold conversion_arrays.
  destruct (imageCoordinates self) as [U V].
  unfold image2world. cbn [format_]. rewrite Hg.
  unfold bind at 1. unfold try_ at 1. unfold world2image. rewrite Hh.
  reflexivity.
Qed.

(** [convertTo] on a square map with a colour entry per channel. *)
Lemma convertTo_ok targetFormat self g h n :
  supported (lower targetFormat) = true ->
  image2world_func (lower targetFormat) = Some g ->
  world2image_func (format_ self) = Some h ->
  shape_0 (data self) = n -> shape_1 (data self) = n -> 0 < n ->
  shape_2 (data self) <= length (backgroundColor self) ->
  convertTo linear targetFormat self
  = (Returned tt, converted linear g h targetFormat self).
Proof.
  intros Ht Hg Hh H0 H1 Hn Hbg.
  rewrite (convertTo_to_interpolate targetFormat self g h Ht Hg Hh).
  unfold converted. pose proof (conversion_arrays_spec g h self) as Hs.
  destruct (conversion_arrays g h self) as [[u v] valid].
  destruct Hs as ((Hsu & Hsv & Hwu & Hwv & Hfit) & _).
  rewrite H0, H1 in Hsu, Hsv.
  rewrite (interpolate_ok linear u v valid _ n); cbn [data backgroundColor];
    try assumption.
  - rewrite H0. reflexivity.
  - unfold flatten. rewrite Hwu. unfold nrows, ncols. rewrite Hsu.
    reflexivity.
  - unfold flatten. rewrite Hwv. unfold nrows, ncols. rewrite Hsv.
    reflexivity.
Qed.

Lemma converted_frame targetFormat self g h :
  format_ (converted linear g h targetFormat self) = targetFormat
  /\ backgroundColor (converted linear g h targetFormat self)
     = backgroundColor self
  /\ shape3 (data (converted linear g h targetFormat self))
     = (shape_0 (data self), shape_0 (data self), shape_2 (data self))
  /\ wf3 (data (converted linear g h targetFormat self)).
Proof.
  unfold converted. destruct (conversion_arrays g h self) as [[u v] valid].
  cbn [format_ backgroundColor data].
  rewrite painted_shape, resampled_shape.
  repeat split. apply painted_wf, resampled_wf, zeros_wf.
Qed.

Lemma converted_pixel targetFormat self g h n i j c :
  shape_0 (data self) = n -> shape_1 (data self) = n ->
  i < n -> j < n -> c < shape_2 (data self) ->
  get3 NaN (data (converted linear g h targetFormat self)) i j c
  = if snd (g ((2 * INR j + 1) / (2 * INR n))%R
              ((2 * INR i + 1) / (2 * INR n))%R)
    then grid_value linear (bin_centers n, bin_centers n)
           (channel (data self) c)
           (conversion_query g h ((2 * INR j + 1) / (2 * INR n))%R
                                 ((2 * INR i + 1) / (2 * INR n))%R)
    else nth c (backgroundColor self) NaN.
Proof.
  intros H0 H1 Hi Hj Hc.
  unfold converted. pose proof (conversion_arrays_spec g h self) as Hs.
  destruct (conversion_arrays g h self) as [[u v] valid].
  destruct Hs as ((Hsu & Hsv & Hwu & Hwv & Hfit) & Hget).
  rewrite H0, H1 in Hsu, Hsv, Hget.
  destruct (Hget i j Hi Hj) as [Hq Hv]. cbn [data]. rewrite H0.
  rewrite (interpolate_pixels linear u v valid self n i j c)
    by assumption.
  rewrite Hv, Hq. reflexivity.
Qed.

End ConversionFacts.

Lemma image2world_func_supported f g :
  image2world_func f = Some g -> supported f = true.
Proof.
  unfold image2world_func, supported, SUPPORTED_FORMATS. cbn [existsb].
  destruct (f =? "angular")%string; [reflexivity|].
  destruct (f =? "skyangular")%string; [reflexivity|].
  destruct (f =? "latlong")%string; [reflexivity|discriminate].
Qed.

Lemma shape3_square {A} (a : array3 A) n :
  shape_0 a = n -> shape_1 a = n -> shape3 a = (n, n, shape_2 a).
Proof.
  destruct a as [[[p q] k] b]. unfold shape_0, shape_1, shape_2.
  cbn [shape3 fst snd]. congruence.
Qed.



Local Open Scope R_scope.

Lemma corner_center_far (n k : nat) :
  (4 <= n)%nat -> k = 0%nat \/ k = (n - 1)%nat ->
  9 / 64 <= ((2 * INR k + 1) / (2 * INR n) - 1 / 2) ^ 2.
Proof.
  intros Hn Hk.
  assert (H4 : 4 <= INR n).
  { replace 4 with (INR 4) by (cbn; lra). apply le_INR. exact Hn. }
  assert (Hc : / (2 * INR n) * (2 * INR n) = 1) by (field; lra).
  assert (Hp : 0 < / (2 * INR n)) by (apply Rinv_0_lt_compat; lra).
  assert (Ht : / (2 * INR n) <= 1 / 8).
  { assert (0 <= / (2 * INR n) * (INR n - 4))
      by (apply Rmult_le_pos; lra).
    nra. }
  set (t := / (2 * INR n)) in *.
  assert (Hsq : 9 / 64 <= (1 / 2 - t) * (1 / 2 - t)) by nra.
  destruct Hk as [->| ->].
  - cbn [INR]. replace ((2 * 0 + 1) / (2 * INR n)) with t
      by (unfold t; field; lra).
    replace ((t - 1 / 2) ^ 2) with ((1 / 2 - t) * (1 / 2 - t)) by field.
    exact Hsq.
  - rewrite minus_INR by lia. cbn [INR].
    replace ((2 * (INR n - 1) + 1) / (2 * INR n)) with (1 - t)
      by (unfold t; field; lra).
    replace ((1 - t - 1 / 2) ^ 2) with ((1 / 2 - t) * (1 / 2 - t)) by field.
    exact Hsq.
Qed.

Lemma disk_corner_invalid (g : R -> R -> R * R * R * bool) (n i j : nat) :
  g = angular2world \/ g = skyangular2world ->
  (4 <= n)%nat ->
  i = 0%nat \/ i = (n - 1)%nat -> j = 0%nat \/ j = (n - 1)%nat ->
  snd (g ((2 * INR j + 1) / (2 * INR n)) ((2 * INR i + 1) / (2 * INR n)))
  = false.
Proof.
  intros Hg Hn Hi Hj.
  pose proof (corner_center_far n i Hn Hi) as Hci.
  pose proof (corner_center_far n j Hn Hj) as Hcj.
  assert (H : Rleb (((2 * INR j + 1) / (2 * INR n) - 0.5) ^ 2
                    + ((2 * INR i + 1) / (2 * INR n) - 0.5) ^ 2) 0.25
              = false).
  { unfold Rleb. destruct (Rle_dec _ _) as [Hle|]; [|reflexivity].
    rewrite lit_half, lit_quarter in Hle. lra. }
  destruct Hg as [-> | ->]; exact H.
Qed.

(** Converting to a disk format blanks the corners: on a square map of at
    least 4 x 4 pixels, after [convertTo] with target ['angular'] or
    ['skyangular'] (in any case) the four corner pixels hold the background
    colour in every channel. *)
Theorem convertTo_disk_blanks_corners
    (linear : list R -> list R -> array2 sample -> R * R -> sample)
    (targetFormat : string) (self : EnvironmentMap) (n : nat) :
  lower targetFormat = "angular"%string
  \/ lower targetFormat = "skyangular"%string ->
  supported (format_ self) = true ->
  shape_0 (data self) = n -> shape_1 (data self) = n -> (4 <= n)%nat ->
  (shape_2 (data self) <= length (backgroundColor self))%nat ->
  exists self',
    convertTo linear targetFormat self = (Returned tt, self')
    /\ forall i j c,
         i = 0%nat \/ i = (n - 1)%nat -> j = 0%nat \/ j = (n - 1)%nat ->
         (c < shape_2 (data self))%nat ->
         get3 NaN (data self') i j c = nth c (backgroundColor self) NaN.
Proof.
  intros Ht Hs H0 H1 Hn Hbg.
  destruct (supported_dispatch _ Hs) as (_ & h & _ & Hh).
  assert (Hg : exists g,
             image2world_func (lower targetFormat) = Some g
             /\ (g = angular2world \/ g = skyangular2world)).
  { destruct Ht as [-> | ->]; eexists; split; try reflexivity; auto. }
  destruct Hg as (g & Hg & Hdisk).
  exists (converted linear g h targetFormat self). split.
  - apply (convertTo_ok linear targetFormat self g h n); try assumption.
    + apply (image2world_func_supported _ g). exact Hg.
    + lia.
  - intros i j c Hi Hj Hc.
    rewrite (converted_pixel linear targetFormat self g h n i j c);
      try assumption; try (destruct Hi, Hj; lia).
    rewrite disk_corner_invalid by assumption. reflexivity.
Qed.

Lemma convertTo_disk_blanks_corners_witness :
  exists self',
    convertTo linear_in_grid "Angular"
      (mkEnvironmentMap (zeros (4, 4, 3)%nat) "latlong" [Num 1; Num 1; Num 1])
    = (Returned tt, self')
    /\ get3 NaN (data self') 0%nat 3%nat 2%nat = Num 1.
Proof.
  destruct (convertTo_disk_blanks_corners linear_in_grid "Angular"
              (mkEnvironmentMap (zeros (4, 4, 3)%nat) "latlong"
                 [Num 1; Num 1; Num 1]) 4%nat)
    as (self' & Hrun & Hpix);
    try reflexivity; try (cbn; lia).
  - left. reflexivity.
  - exists self'. split; [exact Hrun|].
    rewrite (Hpix 0%nat 3%nat 2%nat); cbn; auto; lia.
Defined.

Lemma lower_supported t : In t SUPPORTED_FORMATS -> lower t = t.
Proof.
  intros [<-|[<-|[<-|[]]]]; reflexivity.
Qed.

(** Conversions chain when the targets are written in lower case: on a
    square map whose tag is a registry key, [convertTo] to one registry
    format and then to another both return, and the map ends with the
    second tag, its colour and its shape. *)
Theorem convertTo_chains
    (linear : list R -> list R -> array2 sample -> R * R -> sample)
    (t1 t2 : string) (self : EnvironmentMap) (n : nat) :
  In t1 SUPPORTED_FORMATS -> In t2 SUPPORTED_FORMATS ->
  supported (format_ self) = true ->
  shape_0 (data self) = n -> shape_1 (data self) = n -> (0 < n)%nat ->
  (shape_2 (data self) <= length (backgroundColor self))%nat ->
  exists self1 self2,
    convertTo linear t1 self = (Returned tt, self1)
    /\ convertTo linear t2 self1 = (Returned tt, self2)
    /\ format_ self2 = t2
    /\ backgroundColor self2 = backgroundColor self
    /\ shape3 (data self2) = shape3 (data self).
Proof.
  intros Ht1 Ht2 Hs H0 H1 Hn Hbg.
  pose proof (proj2 (supported_In t1) Ht1) as Hs1.
  pose proof (proj2 (supported_In t2) Ht2) as Hs2.
  destruct (supported_dispatch _ Hs) as (_ & h0 & _ & Hh0).
  destruct (supported_dispatch _ Hs1) as (g1 & h1 & Hg1 & Hh1).
  destruct (supported_dispatch _ Hs2) as (g2 & _ & Hg2 & _).
  destruct (converted_frame linear t1 self g1 h0) as (Hf1 & Hb1 & Hsh1 & _).
  set (s1 := converted linear g1 h0 t1 self) in *.
  assert (H01 : shape_0 (data s1) = n)
    by (unfold shape_0; rewrite Hsh1; exact H0).
  assert (H11 : shape_1 (data s1) = n)
    by (unfold shape_1; rewrite Hsh1; exact H0).
  assert (H21 : shape_2 (data s1) = shape_2 (data self))
    by (unfold shape_2 at 1; rewrite Hsh1; reflexivity).
  destruct (converted_frame linear t2 s1 g2 h1) as (Hf2 & Hb2 & Hsh2 & _).
  exists s1, (converted linear g2 h1 t2 s1).
  split; [|split].
  - apply (convertTo_ok linear t1 self g1 h0 n);
      [rewrite (lower_supported t1 Ht1); exact Hs1
      |rewrite (lower_supported t1 Ht1); exact Hg1
      |exact Hh0|exact H0|exact H1|exact Hn|exact Hbg].
  - apply (convertTo_ok linear t2 s1 g2 h1 n);
      [rewrite (lower_supported t2 Ht2); exact Hs2
      |rewrite (lower_supported t2 Ht2); exact Hg2
      |rewrite Hf1; exact Hh1|exact H01|exact H11|exact Hn
      |rewrite H21, Hb1; exact Hbg].
  - split; [exact Hf2|]. split; [congruence|].
    rewrite Hsh2, H01, H21. symmetry. apply shape3_square; assumption.
Qed.

Lemma convertTo_chains_witness :
  exists self1 self2,
    convertTo linear_in_grid "angular" example_map = (Returned tt, self1)
    /\ convertTo linear_in_grid "latlong" self1 = (Returned tt, self2)
    /\ format_ self2 = "latlong"%string.
Proof.
  destruct (convertTo_chains linear_in_grid "angular" "latlong" example_map
              2%nat)
    as (s1 & s2 & Ha & Hb & Hc & _);
    try reflexivity; try (cbn; auto; lia).
  exists s1, s2. auto.
Defined.

(* ------------------------------------------------------------------ *)
(** * Converting a map to its own format                               *)
(* ------------------------------------------------------------------ *)

Lemma channel_get (a : array3 sample) (c i j : nat) :
  (i < shape_0 a)%nat -> (j < shape_1 a)%nat ->
  get2 NaN (channel a c) i j = get3 NaN a i j c.
Proof.
  intros Hi Hj. unfold get2, get3, channel, ncols. cbn [shape2 buf2 snd].
  rewrite nth_map_seq by (apply index2_lt; assumption). reflexivity.
Qed.

Lemma pixel_center_le (n k k' : nat) :
  (k <= k')%nat -> (k' < n)%nat ->
  (2 * INR k + 1) / (2 * INR n) <= (2 * INR k' + 1) / (2 * INR n).
Proof.
  intros Hk Hk'.
  assert (0 < INR n) by (apply lt_0_INR; lia).
  assert (INR k <= INR k') by (apply le_INR; exact Hk).
  apply Rmult_le_compat_r; [left; apply Rinv_0_lt_compat|]; lra.
Qed.

Lemma bin_centers_ends (n : nat) :
  (0 < n)%nat ->
  hd 0 (bin_centers n) = (2 * INR 0 + 1) / (2 * INR n)
  /\ last (bin_centers n) 0 = (2 * INR (n - 1) + 1) / (2 * INR n).
Proof.
  intros Hn. unfold bin_centers. destruct n as [|m]; [lia|]. split.
  - reflexivity.
  - rewrite seq_S, map_app. cbn [map]. rewrite last_last. cbn [Nat.add].
    replace (S m - 1)%nat with m by lia. reflexivity.
Qed.

(** A pixel centre is never outside the grid of pixel centres. *)
Lemma pixel_center_in_bounds (n k : nat) :
  (k < n)%nat ->
  out_of_bounds (bin_centers n) ((2 * INR k + 1) / (2 * INR n)) = false.
Proof.
  intros Hk. unfold out_of_bounds.
  destruct (bin_centers_ends n ltac:(lia)) as [-> ->].
  pose proof (pixel_center_le n 0 k ltac:(lia) Hk).
  pose proof (pixel_center_le n k (n - 1) ltac:(lia) ltac:(lia)).
  unfold Rltb.
  destruct (Rlt_dec _ _); [lra|]. destruct (Rlt_dec _ _); [lra|].
  reflexivity.
Qed.

(** Converting a lat-long map to lat-long transposes it.  [interpolate]
    gives the interpolator the grid [(cols, rows)] but the values
    [self.data[:, :, c]], whose first axis is the row: the [u] of a query is
    looked up along the rows.  When the in-grid rule returns at a grid node
    the value stored there, a square lat-long map converted to ['latlong']
    comes back with every pixel [(i, j)] that is not in the first or last
    row or column holding what pixel [(j, i)] held.  (The queries of the
    pixels of the frame sit on the border of the grid, where rounding
    decides between the stored value and [nan].) *)
Theorem convertTo_same_latlong_transposes_interior
    (linear : list R -> list R -> array2 sample -> R * R -> sample)
    (targetFormat : string) (self : EnvironmentMap) (n : nat) :
  lower targetFormat = "latlong"%string ->
  format_ self = "latlong"%string ->
  shape_0 (data self) = n -> shape_1 (data self) = n -> (0 < n)%nat ->
  (shape_2 (data self) <= length (backgroundColor self))%nat ->
  (forall c a b,
      (c < shape_2 (data self))%nat ->
      (0 < a)%nat -> (a + 1 < n)%nat -> (0 < b)%nat -> (b + 1 < n)%nat ->
      linear (bin_centers n) (bin_centers n) (channel (data self) c)
        (nth a (bin_centers n) 0, nth b (bin_centers n) 0)
      = get2 NaN (channel (data self) c) a b) ->
  exists self',
    convertTo linear targetFormat self = (Returned tt, self')
    /\ forall i j c,
         (0 < i)%nat -> (i + 1 < n)%nat -> (0 < j)%nat -> (j + 1 < n)%nat ->
         (c < shape_2 (data self))%nat ->
         get3 NaN (data self') i j c = get3 NaN (data self) j i c.
Proof.
  intros Ht Hf H0 H1 Hn Hbg Hnode.
  assert (Hg : image2world_func (lower targetFormat) = Some latlong2world)
    by (rewrite Ht; reflexivity).
  assert (Hh : world2image_func (format_ self) = Some world2latlong)
    by (rewrite Hf; reflexivity).
  exists (converted linear latlong2world world2latlong targetFormat self).
  split.
  - apply (convertTo_ok linear targetFormat self latlong2world world2latlong
             n); try assumption.
    rewrite Ht. reflexivity.
  - intros i j c Hi0 Hi1 Hj0 Hj1 Hc.
    assert (Hi : (i < n)%nat) by lia. assert (Hj : (j < n)%nat) by lia.
    rewrite (converted_pixel linear targetFormat self latlong2world
               world2latlong n i j c) by assumption.
    cbn [latlong2world snd].
    pose proof (pixel_center_inside n j Hj) as Hu.
    pose proof (pixel_center_inside n i Hi) as Hv.
    change (conversion_query latlong2world world2latlong
              ((2 * INR j + 1) / (2 * INR n))
              ((2 * INR i + 1) / (2 * INR n)))
      with (roundtrip latlong2world world2latlong
              ((2 * INR j + 1) / (2 * INR n))
              ((2 * INR i + 1) / (2 * INR n))).
    rewrite latlong_roundtrip by lra.
    unfold grid_value. cbn [fst snd].
    rewrite !pixel_center_in_bounds by assumption. cbn [orb].
    rewrite <- (nth_pixel_center n j Hj), <- (nth_pixel_center n i Hi).
    fold (bin_centers n). rewrite Hnode by assumption.
    apply channel_get; lia.
Qed.

(** On a grid of two points per axis, scipy's linear rule returns at each
    of the four nodes the number stored there. *)
Lemma linear_in_grid_two_nodes (g0 g1 v00 v01 v10 v11 : R) (a b : nat) :
  g0 <> g1 -> (a < 2)%nat -> (b < 2)%nat ->
  linear_in_grid [g0; g1] [g0; g1]
    (mkArray2 (2%nat, 2%nat) [Num v00; Num v01; Num v10; Num v11])
    (nth a [g0; g1] 0, nth b [g0; g1] 0)
  = get2 NaN
      (mkArray2 (2%nat, 2%nat) [Num v00; Num v01; Num v10; Num v11]) a b.
Proof.
  intros Hg Ha Hb.
  unfold linear_in_grid, norm_distance, find_index. cbn [length Nat.sub].
  rewrite !Nat.min_0_r. cbn [fst snd].
  unfold get2, ncols. cbn [shape2 buf2 snd].
  destruct a as [|[|a]]; [| |lia]; destruct b as [|[|b]]; try lia;
    cbn [nth Nat.mul Nat.add smul sadd]; f_equal; field; lra.
Qed.

Lemma searchsorted_four (g0 g1 g2 g3 : R) :
  g0 < g1 -> g1 < g2 -> g2 < g3 ->
  searchsorted [g0; g1; g2; g3] g1 = 1%nat
  /\ searchsorted [g0; g1; g2; g3] g2 = 2%nat.
Proof.
  intros H01 H12 H23. unfold searchsorted, Rltb.
  repeat (destruct (Rlt_dec _ _); try lra). split; reflexivity.
Qed.

(** On a grid of four points per axis holding numbers, the rule returns at
    each of the four inner nodes the number stored there. *)
Lemma linear_in_grid_four_nodes (g0 g1 g2 g3 : R) (vals : list R)
    (a b : nat) :
  g0 < g1 -> g1 < g2 -> g2 < g3 -> length vals = 16%nat ->
  (0 < a < 3)%nat -> (0 < b < 3)%nat ->
  linear_in_grid [g0; g1; g2; g3] [g0; g1; g2; g3]
    (mkArray2 (4%nat, 4%nat) (map Num vals))
    (nth a [g0; g1; g2; g3] 0, nth b [g0; g1; g2; g3] 0)
  = get2 NaN (mkArray2 (4%nat, 4%nat) (map Num vals)) a b.
Proof.
  intros H01 H12 H23 Hlen Ha Hb.
  destruct (searchsorted_four g0 g1 g2 g3 H01 H12 H23) as [S1 S2].
  do 16 (destruct vals as [|? vals]; [discriminate|]).
  destruct vals; [|discriminate].
  unfold linear_in_grid, norm_distance, find_index. cbn [fst snd length].
  unfold get2, ncols. cbn [shape2 buf2 snd map].
  destruct a as [|[|[|a]]]; try lia; destruct b as [|[|[|b]]]; try lia;
    cbn [nth]; rewrite ?S1, ?S2;
    cbn [Nat.sub Nat.min nth Nat.mul Nat.add smul sadd];
    f_equal; field; lra.
Qed.

Lemma convertTo_same_latlong_transposes_interior_witness :
  exists self',
    convertTo linear_in_grid "latlong" example_ramp4 = (Returned tt, self')
    /\ get3 NaN (data example_ramp4) 1 2 0 = Num 7
    /\ get3 NaN (data self') 1 2 0 = Num 10
    /\ get3 NaN (data self') 2 1 0 = Num 7.
Proof.
  destruct (convertTo_same_latlong_transposes_interior linear_in_grid
              "latlong" example_ramp4 4%nat)
    as (self' & Hrun & Hpix); try reflexivity; try (cbn; lia).
  - intros c a b Hc Ha0 Ha1 Hb0 Hb1.
    assert (c = 0%nat) by (cbn in Hc; lia). subst c.
    refine (linear_in_grid_four_nodes
              ((2 * INR 0 + 1) / (2 * INR 4)) ((2 * INR 1 + 1) / (2 * INR 4))
              ((2 * INR 2 + 1) / (2 * INR 4)) ((2 * INR 3 + 1) / (2 * INR 4))
              [1; 2; 3; 4; 5; 6; 7; 8; 9; 10; 11; 12; 13; 14; 15; 16]
              a b _ _ _ eq_refl _ _); cbn [INR]; try lra; lia.
  - exists self'. split; [exact Hrun|]. split; [reflexivity|].
    split; rewrite Hpix by (cbn; lia); reflexivity.
Defined.

(* ------------------------------------------------------------------ *)
(** * The rim of the angular disk, and maps with many channels         *)
(* ------------------------------------------------------------------ *)

(** The whole rim of the angular disk is one direction: every image point
    at distance 1/2 from the centre is valid and maps to [(0, 0, 1)], the
    direction opposite to the one of the centre, [(0, 0, -1)]. *)
Theorem angular_rim_is_one_direction :
  (forall u v,
      (2 * u - 1) ^ 2 + (2 * v - 1) ^ 2 = 1 ->
      angular2world u v = (0, 0, 1, true))
  /\ angular2world (1 / 2) (1 / 2) = (0, 0, - 1, true).
Proof.
  split.
  - intros u v H. unfold angular2world. rewrite H, sqrt_1, Rmult_1_r.
    rewrite sin_PI, cos_PI, !Rmult_0_l.
    assert (Hv : Rleb ((u - 0.5) ^ 2 + (v - 0.5) ^ 2) 0.25 = true).
    { apply Rleb_true_iff. rewrite lit_half, lit_quarter. nra. }
    rewrite Hv. repeat f_equal. ring.
  - unfold angular2world.
    replace ((2 * (1 / 2) - 1) ^ 2 + (2 * (1 / 2) - 1) ^ 2) with 0 by field.
    rewrite sqrt_0, Rmult_0_r, sin_0, cos_0, !Rmult_0_l.
    assert (Hv : Rleb ((1 / 2 - 0.5) ^ 2 + (1 / 2 - 0.5) ^ 2) 0.25 = true).
    { apply Rleb_true_iff. rewrite lit_half, lit_quarter. nra. }
    rewrite Hv. reflexivity.
Qed.

Lemma angular_rim_is_one_direction_witness :
  angular2world 1 (1 / 2) = (0, 0, 1, true).
Proof.
  apply (proj1 angular_rim_is_one_direction 1 (1 / 2)). field.
Defined.

Local Open Scope nat_scope.




